(** * Drupal.dialog over Bootstrap modals: a shallow embedding of
      [web/themes/custom/vos_digital_solutions/src/js/overrides/dialog.js]

    The file models the dialog factory of the theme: the option merge, the
    footer construction of [updateButtons], the attribute and markup changes of
    [openDialog], and [closeDialog].  JavaScript values live in a store of
    objects, the element the dialog is bound to is a tree of nodes, and every
    operation is a computation in a state-and-exception monad.

    What the model takes from outside the file:
    - jQuery, after jQuery 3: [extend], [each], [attr], [addClass],
      [removeAttr], [html], [css], [remove], [appendTo], [prependTo] and the
      selection of descendants by a chain of classes;
    - the host: [JSON.stringify], the HTML parser, [Drupal.t], and whether the
      modal plugin and [DrupalDialogEvent] exist;
    - listeners and the modal plugin: a call to them is recorded in a trace
      with what they are given, and returns.

    The dialog is bound to one element.  Numbers are integers, objects are
    plain data (no accessors, no [toString] or [toJSON] of their own), and the
    script runs in sloppy mode, as it is written.  Where the meaning of a call
    depends on more than that, the outcome is [Unmodelled]. *)

From stdpp Require Import base option list strings gmap fin_maps pretty.
From Stdlib Require Import ZArith Ascii String Lia.

Local Set Warnings "-register-all".

Local Open Scope string_scope.
Local Open Scope Z_scope.

(** ** JavaScript values *)

Module JS.

(** Objects and arrays are cells of a store and have an identity, their
    address; the other values are primitives.  The store only grows: cell
    [l] is the [l]-th object created.  A function is known by its name only:
    the component stores and forwards callbacks, it calls none of them while
    an operation runs. *)
Abbreviation loc := nat.

Inductive value :=
| VUndef
| VNull
| VBool (b : bool)
| VNum (n : Z)
| VStr (s : string)
| VRef (l : loc)
| VFun (name : string).

Inductive cell :=
| CObj (fields : gmap string value)
| CArr (items : list value).

Abbreviation heap := (list cell).

(** [a === b] for the comparisons the source makes. *)
Definition strict_eq (a b : value) : bool :=
  match a, b with
  | VUndef, VUndef => true
  | VNull, VNull => true
  | VBool x, VBool y => Bool.eqb x y
  | VNum x, VNum y => Z.eqb x y
  | VStr x, VStr y => String.eqb x y
  | VRef x, VRef y => Nat.eqb x y
  | VFun x, VFun y => String.eqb x y
  | _, _ => false
  end.

(** ToBoolean: the conversion behind [!x] and [x && y]. *)
Definition truthy (v : value) : bool :=
  match v with
  | VUndef | VNull => false
  | VBool b => b
  | VNum n => negb (Z.eqb n 0)
  | VStr s => negb (String.eqb s "")
  | VRef _ | VFun _ => true
  end.

(** The integers a double holds exactly. *)
Definition safe_integer (n : Z) : bool :=
  Z.ltb (- 2 ^ 53) n && Z.ltb n (2 ^ 53).

(** ToString on primitives.  Objects and functions would run their own
    [toString]; the embedding gives no string for them. *)
Definition to_string (v : value) : option string :=
  match v with
  | VUndef => Some "undefined"
  | VNull => Some "null"
  | VBool true => Some "true"
  | VBool false => Some "false"
  | VNum n => if safe_integer n then Some (pretty n) else None
  | VStr s => Some s
  | VRef _ | VFun _ => None
  end.

(** Reading property [k] of an object value, [undefined] when absent. *)
Definition field (m : gmap string value) (k : string) : value :=
  default VUndef (m !! k).

End JS.

Export JS.

(** ** Class attributes and the [btn-] pattern *)

Module Classes.

(** jQuery's [rnothtmlwhite] splits on space, tab, line feed, carriage
    return and form feed. *)
Definition is_html_white (c : ascii) : bool :=
  match c with
  | " "%char | "009"%char | "010"%char | "012"%char | "013"%char => true
  | _ => false
  end.

Definition push (t : string) (ts : list string) : list string :=
  match t with "" => ts | _ => t :: ts end.

(** [split_white s] is the run of non-blank characters [s] starts with, and
    the tokens after it. *)
Fixpoint split_white (s : string) : string * list string :=
  match s with
  | "" => ("", [])
  | String c s' =>
      let '(t, ts) := split_white s' in
      if is_html_white c then ("", push t ts) else (String c t, ts)
  end.

(** [value.match(rnothtmlwhite) || []] *)
Definition tokens (s : string) : list string :=
  let '(t, ts) := split_white s in push t ts.

Fixpoint join (sep : string) (l : list string) : string :=
  match l with
  | [] => ""
  | [x] => x
  | x :: l' => x ++ sep ++ join sep l'
  end.

(** jQuery's [stripAndCollapse]. *)
Definition stripAndCollapse (s : string) : string := join " " (tokens s).

Definition add_token (cur : list string) (clazz : string) : list string :=
  if bool_decide (clazz ∈ cur) then cur else cur ++ [clazz].

(** [addClass] on one element, given the class names [classesToArray]
    produced.  [cls] is the element's class attribute, [None] when it has
    none.  The source searches [" " + clazz + " "] in the blank-separated
    string; on tokens that is membership. *)
Definition addClass (names : list string) (cls : option string) : option string :=
  match names with
  | [] => cls
  | _ =>
      let curValue := default "" cls in
      let finalValue := join " " (foldl add_token (tokens curValue) names) in
      if String.eqb curValue finalValue then cls else Some finalValue
  end.

(** [\w] of a regular expression without the unicode flag. *)
Definition is_word (c : ascii) : bool :=
  let n := nat_of_ascii c in
  ((48 <=? n) && (n <=? 57) || (65 <=? n) && (n <=? 90)
   || (97 <=? n) && (n <=? 122) || (n =? 95))%nat.

(** [s.startsWith(p)] *)
Fixpoint starts_with (p s : string) : bool :=
  match p, s with
  | "", _ => true
  | String a p', String b s' => Ascii.eqb a b && starts_with p' s'
  | String _ _, "" => false
  end.

(** [s.match(/\bbtn-.*/)] is not null: some occurrence of [btn-] sits at a
    word boundary, that is at the start of [s] or after a non-word character
    ([b] itself is a word character, and [.*] matches the empty string).
    [prev] tells whether the character before [s] is a word character. *)
Fixpoint match_btn_from (prev : bool) (s : string) : bool :=
  match s with
  | "" => false
  | String c s' =>
      (negb prev && starts_with "btn-" s) || match_btn_from (is_word c) s'
  end.

Definition match_btn (s : string) : bool := match_btn_from false s.


End Classes.

(** ** The element: a tree of nodes *)

Module Dom.

(** An element has a tag, attributes, inline style properties, the button
    objects whose click handlers are bound to it, and children. *)
Inductive node :=
| Elem (tag : string) (attrs : gmap string string) (style : gmap string string)
       (click : list value) (kids : list node)
| Text (s : string).

Definition class_of (n : node) : option string :=
  match n with
  | Elem _ a _ _ _ => a !! "class"
  | Text _ => None
  end.

Definition has_class (c : string) (n : node) : bool :=
  bool_decide (c ∈ Classes.tokens (default "" (class_of n))).

(** A selector [.c1 .c2 ... .ck] is the list of its class names.  While
    walking down from the context element, [rest] is the part of the selector
    the ancestors have not matched yet; the last name is matched by the
    selected node itself. *)
Definition step (rest : list string) (n : node) : list string :=
  match rest with
  | c :: (_ :: _) as rest' => if has_class c n then rest' else rest
  | _ => rest
  end.

Definition hits (rest : list string) (n : node) : bool :=
  match rest with
  | [c] => has_class c n
  | _ => false
  end.

(** The nodes [$(selector, context)] selects below one child of the
    context, in document order. *)
Fixpoint select (rest : list string) (n : node) : list node :=
  match n with
  | Elem _ _ _ _ ks =>
      (if hits rest n then [n] else []) ++ flat_map (select (step rest n)) ks
  | Text _ => []
  end.

(** Apply [f] to every selected node (the set is computed on the tree as it
    is before the change). *)
Fixpoint update (f : node → node) (rest : list string) (n : node) : node :=
  match n with
  | Elem t a s c ks =>
      let n' := Elem t a s c (map (update f (step rest n)) ks) in
      if hits rest n then f n' else n'
  | Text _ => n
  end.

(** [.remove()] on the selected nodes. *)
Fixpoint remove (rest : list string) (n : node) : node :=
  match n with
  | Elem t a s c ks =>
      Elem t a s c
        (flat_map (λ k, if hits (step rest n) k then []
                        else [remove (step rest n) k]) ks)
  | Text _ => n
  end.

Definition select_in (sel : list string) (ks : list node) : list node :=
  flat_map (select sel) ks.

Definition update_in (f : node → node) (sel : list string) (ks : list node)
  : list node :=
  map (update f sel) ks.

Definition remove_in (sel : list string) (ks : list node) : list node :=
  flat_map (λ k, if hits sel k then [] else [remove sel k]) ks.

Definition append_kids (new : list node) (n : node) : node :=
  match n with
  | Elem t a s c ks => Elem t a s c (ks ++ new)
  | Text _ => n
  end.

Definition prepend_kids (new : list node) (n : node) : node :=
  match n with
  | Elem t a s c ks => Elem t a s c (new ++ ks)
  | Text _ => n
  end.

Definition set_style (k v : string) (n : node) : node :=
  match n with
  | Elem t a s c ks => Elem t a (<[k := v]> s) c ks
  | Text _ => n
  end.

Definition map_class (f : option string → option string) (n : node) : node :=
  match n with
  | Elem t a s c ks => Elem t (partial_alter f "class" a) s c ks
  | Text _ => n
  end.

Definition kids_of (n : node) : list node :=
  match n with
  | Elem _ _ _ _ ks => ks
  | Text _ => []
  end.

End Dom.

Export Dom.

(** ** State, events and the monad of operations *)

Module Run.

(** What a listener or the modal library sees when it is called: the two
    data fields of the dialog handle and the store. *)
Record snapshot := Snapshot {
  seen_open : value;
  seen_returnValue : value;
  seen_store : heap;
}.

(** Calls that leave the component.  Listeners and the modal library are
    collaborators: a call to them is recorded with its arguments and what
    they can observe, and returns normally. *)
Inductive event :=
| Trigger (name : string) (settings : value) (seen : snapshot)
    (* $(window).trigger(name, [dialog, $element, settings]) *)
| Dispatch (type : string) (settings : value) (seen : snapshot)
    (* element.dispatchEvent(new DrupalDialogEvent(type, dialog, settings)) *)
| Modal (arg : value) (seen : snapshot).
    (* $element.modal(arg) *)

Record state := State {
  store : heap;
  drupalSettings_dialog : value;        (* the global default options *)
  dialog_open : value;                  (* dialog.open *)
  dialog_returnValue : value;           (* dialog.returnValue *)
  el_attrs : gmap string string;        (* attributes of the element *)
  el_style : gmap string string;        (* its inline style *)
  el_kids : list node;                  (* its subtree *)
  trace : list event;                   (* calls made so far, oldest first *)
}.

Definition with_store (h : heap) (st : state) : state :=
  State h (drupalSettings_dialog st) (dialog_open st) (dialog_returnValue st)
    (el_attrs st) (el_style st) (el_kids st) (trace st).

Definition with_dialog (o r : value) (st : state) : state :=
  State (store st) (drupalSettings_dialog st) o r
    (el_attrs st) (el_style st) (el_kids st) (trace st).

Definition with_attrs (a : gmap string string) (st : state) : state :=
  State (store st) (drupalSettings_dialog st) (dialog_open st)
    (dialog_returnValue st) a (el_style st) (el_kids st) (trace st).

Definition with_style (s : gmap string string) (st : state) : state :=
  State (store st) (drupalSettings_dialog st) (dialog_open st)
    (dialog_returnValue st) (el_attrs st) s (el_kids st) (trace st).

Definition with_kids (ks : list node) (st : state) : state :=
  State (store st) (drupalSettings_dialog st) (dialog_open st)
    (dialog_returnValue st) (el_attrs st) (el_style st) ks (trace st).

Definition with_trace (t : list event) (st : state) : state :=
  State (store st) (drupalSettings_dialog st) (dialog_open st)
    (dialog_returnValue st) (el_attrs st) (el_style st) (el_kids st) t.

Inductive error :=
| TypeError (msg : string).

(** An operation returns, throws, or leaves the fragment of JavaScript and
    jQuery this development gives a meaning to ([Unmodelled]: a value of a
    shape whose treatment depends on user code or on engine details). *)
Inductive outcome (A : Type) :=
| Ok (a : A)
| Throw (e : error)
| Unmodelled.
Arguments Ok {A} a.
Arguments Throw {A} e.
Arguments Unmodelled {A}.

Definition obind {A B} (m : outcome A) (f : A → outcome B) : outcome B :=
  match m with
  | Ok a => f a
  | Throw e => Throw e
  | Unmodelled => Unmodelled
  end.

Definition of_option {A} (o : option A) : outcome A :=
  match o with
  | Some a => Ok a
  | None => Unmodelled
  end.

(** Effects persist when an operation throws. *)
Definition M (A : Type) : Type := state → outcome A * state.

Definition ret {A} (a : A) : M A := λ st, (Ok a, st).

Definition bind {A B} (m : M A) (f : A → M B) : M B :=
  λ st, match m st with
        | (Ok a, st') => f a st'
        | (Throw e, st') => (Throw e, st')
        | (Unmodelled, st') => (Unmodelled, st')
        end.

Definition lift {A} (o : outcome A) : M A := λ st, (o, st).
Definition gets {A} (f : state → A) : M A := λ st, (Ok (f st), st).
Definition modify (f : state → state) : M unit := λ st, (Ok tt, f st).
Definition when (b : bool) (m : M unit) : M unit := if b then m else ret tt.

Declare Scope js_scope.
Delimit Scope js_scope with js.
Notation "x <- m ;; k" := (bind m (λ x, k))
  (at level 100, m at next level, right associativity) : js_scope.
Notation "m ;; k" := (bind m (λ _, k))
  (at level 100, right associativity) : js_scope.
Notation "x <~ o ;; k" := (obind o (λ x, k))
  (at level 100, o at next level, right associativity) : js_scope.

Definition snap (st : state) : snapshot :=
  Snapshot (dialog_open st) (dialog_returnValue st) (store st).

Definition emit (e : snapshot → event) : M unit :=
  modify (λ st, with_trace (trace st ++ [e (snap st)]) st).

(** [{...}]: a new object. *)
Definition alloc (c : cell) : M loc :=
  λ st, (Ok (List.length (store st)), with_store (store st ++ [c]) st).

(** The fields of the object at [l]. *)
Definition read (l : loc) : M (gmap string value) :=
  λ st, match store st !! l with
        | Some (CObj m) => (Ok m, st)
        | _ => (Unmodelled, st)
        end.

(** [o.k = v] on the object at [l]. *)
Definition write (l : loc) (k : string) (v : value) : M unit :=
  λ st, match store st !! l with
        | Some (CObj m) => (Ok tt, with_store (<[l := CObj (<[k := v]> m)]> (store st)) st)
        | _ => (Unmodelled, st)
        end.

End Run.

Export Run.

(** ** The library calls the component makes *)

Module JQuery.

Local Open Scope js_scope.

(** The host: what the page provides besides jQuery. *)
Record host := Host {
  (* JSON.stringify on an object of the store; [None] when it throws
     (a cyclic structure) *)
  JSON_stringify : heap → value → option string;
  (* the nodes an HTML string parses to *)
  parseHTML : string → list node;
  (* Drupal.t *)
  Drupal_t : string → string;
  (* $element.modal !== undefined *)
  has_modal : bool;
  (* typeof DrupalDialogEvent !== 'undefined' *)
  has_DrupalDialogEvent : bool;
}.

Fixpoint chars (s : string) : list value :=
  match s with
  | "" => []
  | String c s' => VStr (String c "") :: chars s'
  end.

Definition indexed (xs : list value) : gmap string value :=
  list_to_map (imap (λ (i : nat) x, (pretty i, x)) xs).

(** The properties [for (name in v)] visits. *)
Definition enumerable (h : heap) (v : value) : outcome (gmap string value) :=
  match v with
  | VRef l =>
      match h !! l with
      | Some (CObj m) => Ok m
      | Some (CArr xs) => Ok (indexed xs)
      | None => Unmodelled
      end
  | VStr s => Ok (indexed (chars s))
  | VUndef | VNull | VBool _ | VNum _ | VFun _ => Ok ∅
  end.

Global Instance value_eq_dec : EqDecision value.
Proof. solve_decision. Defined.

(** jQuery.extend skips [__proto__] and properties whose value is
    [undefined]. *)
Definition copied (m : gmap string value) : gmap string value :=
  filter (λ kv, kv.1 ≠ "__proto__" ∧ kv.2 ≠ VUndef) m.

Definition extend_fields (h : heap) (sources : list value)
  : outcome (gmap string value) :=
  foldl (λ acc src, target <~ acc ;; m <~ enumerable h src ;;
                    Ok (copied m ∪ target))
        (Ok ∅) sources.

(** [$.extend({}, src1, ..., srcn)]: a shallow merge into a new object,
    later sources win.  The sources are read, never written. *)
Definition extend (sources : list value) : M loc :=
  h <- gets store ;;
  m <- lift (extend_fields h sources) ;;
  alloc (CObj m).

(** [classesToArray]: the class names [addClass(v)] adds.  A function would
    be called and an array taken as it is. *)
Definition classesToArray (h : heap) (v : value) : outcome (list string) :=
  match v with
  | VStr s => Ok (Classes.tokens s)
  | VFun _ => Unmodelled
  | VRef l =>
      match h !! l with
      | Some (CObj _) => Ok []
      | _ => Unmodelled
      end
  | VUndef | VNull | VBool _ | VNum _ => Ok []
  end.

Definition is_bool_attr (k : string) : bool :=
  bool_decide (k ∈ ["checked"; "selected"; "async"; "autofocus"; "autoplay";
                    "controls"; "defer"; "disabled"; "hidden"; "ismap";
                    "loop"; "multiple"; "open"; "readonly"; "required";
                    "scoped"]).

Definition is_lower_or_digit (c : ascii) : bool :=
  let n := nat_of_ascii c in
  ((48 <=? n) && (n <=? 57) || (97 <=? n) && (n <=? 122) || (n =? 45))%nat.

Fixpoint all_chars (p : ascii → bool) (s : string) : bool :=
  match s with
  | "" => true
  | String c s' => p c && all_chars p s'
  end.

(** Attribute names that [setAttribute] takes and stores unchanged. *)
Definition attr_name_ok (k : string) : bool :=
  match k with
  | "" => false
  | String c _ =>
      let n := nat_of_ascii c in
      ((97 <=? n) && (n <=? 122))%nat && all_chars is_lower_or_digit k
  end.

(** [jQuery.attr(elem, k, v)] *)
Definition attr_set (k : string) (v : value) (a : gmap string string)
  : outcome (gmap string string) :=
  if negb (attr_name_ok k) then Unmodelled else
  match v with
  | VUndef => Ok a
  | VNull => Ok (delete k a)
  | VRef _ | VFun _ => Unmodelled
  | VBool false => if is_bool_attr k then Ok (delete k a) else Ok (<[k := "false"]> a)
  | _ =>
      if is_bool_attr k then Ok (<[k := k]> a)
      else s <~ of_option (to_string v) ;; Ok (<[k := s]> a)
  end.

(** [.attr(attributes)] with an object of name/value pairs. *)
Definition attr_all (h : heap) (attributes : value) (a : gmap string string)
  : outcome (gmap string string) :=
  match attributes with
  | VRef l =>
      match h !! l with
      | Some (CObj m) =>
          foldr (λ kv acc, a' <~ acc ;; attr_set kv.1 kv.2 a') (Ok a)
                (map_to_list m)
      | _ => Unmodelled
      end
  | _ => Unmodelled
  end.

(** [Array.prototype.join]: [undefined] and [null] give the empty string. *)
Definition join_item (v : value) : outcome string :=
  match v with
  | VUndef | VNull => Ok ""
  | _ => of_option (to_string v)
  end.

Fixpoint omap_list {A B} (f : A → outcome B) (l : list A) : outcome (list B) :=
  match l with
  | [] => Ok []
  | x :: l' => y <~ f x ;; ys <~ omap_list f l' ;; Ok (y :: ys)
  end.

Definition join_values (sep : string) (vs : list value) : outcome string :=
  ss <~ omap_list join_item vs ;; Ok (Classes.join sep ss).

(** The items [$.each(v, callback)] visits.  [isArrayLike] applies the [in]
    operator to every truthy value, which throws on a primitive. *)
Definition each_items (h : heap) (v : value) : outcome (list value) :=
  match v with
  | VRef l =>
      match h !! l with
      | Some (CArr xs) => Ok xs
      | _ => Unmodelled
      end
  | VFun _ => Ok []
  | VUndef | VNull => Ok []
  | VBool _ | VNum _ | VStr _ =>
      if truthy v
      then Throw (TypeError "Cannot use 'in' operator to search for 'length'")
      else Ok []
  end.

(** [v.length] *)
Definition length_of (h : heap) (v : value) : outcome value :=
  match v with
  | VUndef | VNull =>
      Throw (TypeError "Cannot read properties of undefined (reading 'length')")
  | VStr s => Ok (VNum (Z.of_nat (String.length s)))
  | VRef l =>
      match h !! l with
      | Some (CArr xs) => Ok (VNum (Z.of_nat (List.length xs)))
      | Some (CObj m) => Ok (field m "length")
      | None => Unmodelled
      end
  | VBool _ | VNum _ => Ok VUndef
  | VFun _ => Unmodelled
  end.

(** [v > 0] *)
Definition gt_zero (v : value) : outcome bool :=
  match v with
  | VNum n => Ok (0 <? n)
  | VUndef | VNull => Ok false
  | VBool b => Ok b
  | VStr _ | VRef _ | VFun _ => Unmodelled
  end.

End JQuery.

Export JQuery.

(** ** The dialog factory *)

Module Dialog.

Local Open Scope js_scope.

(** The object the file assigns to [drupalSettings.dialog]. *)
Definition default_options : gmap string value :=
  <["autoOpen" := VBool true]>
  (<["dialogClasses" := VStr ""]>
  (<["dialogShowHeader" := VBool true]>
  (<["dialogShowHeaderTitle" := VBool true]>
  (<["dialogStatic" := VBool false]>
  (<["dialogHeadingLevel" := VNum 5]>
  (<["buttonClass" := VStr "btn"]>
  (<["buttonPrimaryClass" := VStr "btn-primary"]>
  (<["close" := VFun "close"]> ∅)))))))).

Definition with_defaults (d : value) (st : state) : state :=
  State (store st) d (dialog_open st) (dialog_returnValue st)
    (el_attrs st) (el_style st) (el_kids st) (trace st).

(** Loading the file: [drupalSettings.dialog = {...}]. *)
Definition load : M unit :=
  l <- alloc (CObj default_options) ;;
  modify (with_defaults (VRef l)).

Definition footer_sel : list string :=
  ["modal-dialog"; "modal-content"; "modal-footer"].
Definition content_sel : list string := ["modal-dialog"; "modal-content"].
Definition dialog_sel : list string := ["modal-dialog"].

Definition dq : string := String (ascii_of_nat 34) "".
Definition quoted (s : string) : string := dq +:+ s +:+ dq.

Definition settingIsTrue (setting : value) : bool :=
  negb (strict_eq setting VUndef)
  && (strict_eq setting (VBool true) || strict_eq setting (VStr "true")).

(** [$(button).attr('class') && !$(button).attr('class').match(/\bbtn-.*/)] *)
Definition wants_fallback (cls : option string) : bool :=
  match cls with
  | Some c => truthy (VStr c) && negb (Classes.match_btn c)
  | None => false
  end.

(** Lines 100-107: the default classes of a button that brings no [btn-]
    class of its own. *)
Definition fallback (classes : list value) (button : node) : outcome node :=
  if wants_fallback (class_of button) then
    names <~ join_values " " classes ;;
    Ok (map_class (Classes.addClass (Classes.tokens names)) button)
  else Ok button.

Section Instance.

(** The closure of one call [Drupal.dialog(element, options)]: the host,
    and the options given to the factory.  The element is the one of the
    state. *)
Context (H : host) (options : value).

(** [buttonObject.k] for [k] among [attributes], [class], [click] and
    [text].  [buttonObject] is [this] of a sloppy-mode callback: a
    primitive is boxed and has none of these properties, [undefined] and
    [null] become the global object. *)
Definition button_prop (h : heap) (buttonObject : value) (k : string)
  : outcome value :=
  match buttonObject with
  | VRef l =>
      match h !! l with
      | Some (CObj m) => Ok (field m k)
      | Some (CArr _) => Ok VUndef
      | None => Unmodelled
      end
  | VUndef | VNull => Unmodelled
  | VBool _ | VNum _ | VStr _ | VFun _ => Ok VUndef
  end.

(** [.html(text)]: the getter when [text] is [undefined]. *)
Definition html (text : value) (old : list node) : outcome (list node) :=
  match text with
  | VUndef => Ok old
  | VStr s => Ok (parseHTML H s)
  | _ => Unmodelled
  end.

(** Lines 87-98: the button with its attributes, its own classes, its
    click handler and its content. *)
Definition assemble (h : heap) (buttonObject : value) : outcome node :=
  let a0 : gmap string string := {[ "type" := "button" ]} in
  attributes <~ button_prop h buttonObject "attributes" ;;
  a1 <~ (if negb (strict_eq attributes VUndef)
         then attr_all h attributes a0 else Ok a0) ;;
  cls <~ button_prop h buttonObject "class" ;;
  names <~ classesToArray h cls ;;
  text <~ button_prop h buttonObject "text" ;;
  ks <~ html text [] ;;
  Ok (Elem "button" (partial_alter (Classes.addClass names) "class" a1)
           ∅ [buttonObject] ks).

(** The body of the [$.each] callback of [updateButtons]. *)
Definition make_button (h : heap) (settings : gmap string value)
    (buttonObject : value) : outcome node :=
  let classes := [field settings "buttonClass";
                  field settings "buttonPrimaryClass"] in
  button <~ assemble h buttonObject ;;
  fallback classes button.

(** Lines 81-110: the footer with one button per item of [buttons]. *)
Definition make_footer (h : heap) (settings : gmap string value)
    (buttons : value) : outcome node :=
  items <~ each_items h buttons ;;
  bs <~ omap_list (make_button h settings) items ;;
  Ok (Elem "div" {[ "class" := "modal-footer" ]} ∅ [] bs).

Definition updateButtons (buttons : value) : M unit :=
  d <- gets drupalSettings_dialog ;;
  settings <- extend [d; options] ;;
  s <- read settings ;;
  h <- gets store ;;
  modalFooter <- lift (make_footer h s buttons) ;;
  ks <- gets el_kids ;;
  when (0 <? Z.of_nat (List.length (select_in footer_sel ks)))
    (modify (with_kids (remove_in footer_sel ks))) ;;
  ks <- gets el_kids ;;
  when (negb (bool_decide (kids_of modalFooter = [])))
    (modify (with_kids (update_in (append_kids [modalFooter]) content_sel ks))).

(** [dispatchDialogEvent(eventType, dialog, element, settings)]; every call
    passes the handle and the element of the closure. *)
Definition dispatchDialogEvent (eventType : string) (settings : value)
  : M unit :=
  if negb (has_DrupalDialogEvent H) then
    emit (Trigger ("dialog:" +:+ eventType) settings)
  else
    s <- (if truthy settings then ret settings
          else l <- alloc (CObj ∅) ;; ret (VRef l)) ;;
    emit (Dispatch eventType s).

(** [$($element).attr(k, v)] *)
Definition set_attr (k v : string) : M unit :=
  modify (λ st, with_attrs (<[k := v]> (el_attrs st)) st).

Definition close_button : string :=
  "<button type=" +:+ quoted "button" +:+ " class=" +:+ quoted "close btn-close"
  +:+ " data-bs-dismiss=" +:+ quoted "modal" +:+ " data-dismiss=" +:+ quoted "modal"
  +:+ " aria-label=" +:+ quoted (Drupal_t H "Close") +:+ "><span aria-hidden="
  +:+ quoted "true" +:+ " class=" +:+ quoted "visually-hidden"
  +:+ ">&times;</span></button>".

(** Lines 151-164 *)
Definition add_header (s : gmap string value) : M unit :=
  when (settingIsTrue (field s "dialogShowHeader"))
    (let heading := field s "dialogHeadingLevel" in
     title <- (if settingIsTrue (field s "dialogShowHeaderTitle") then
                 hs <- lift (of_option (to_string heading)) ;;
                 ts <- lift (of_option (to_string (field s "title"))) ;;
                 ret ("<h" +:+ hs +:+ " class=" +:+ quoted "modal-title" +:+ ">"
                      +:+ ts +:+ "</h" +:+ hs +:+ ">")
               else ret "") ;;
     let modalHeader :=
       "<div class=" +:+ quoted "modal-header" +:+ ">" +:+ title +:+ close_button in
     modify (λ st, with_kids
       (update_in (prepend_kids (parseHTML H modalHeader)) content_sel (el_kids st)) st)).

(** Lines 166-169 *)
Definition make_static (s : gmap string value) : M unit :=
  when (settingIsTrue (field s "dialogStatic"))
    (set_attr "data-bs-backdrop" "static" ;;
     set_attr "data-bs-keyboard" "false").

(** Lines 172-179 *)
Definition make_non_modal (s : gmap string value) : M unit :=
  when (negb (truthy (field s "modal")))
    (set_attr "data-bs-backdrop" "false" ;;
     set_attr "data-bs-keyboard" "true" ;;
     modify (λ st, with_style (<["pointer-events" := "none"]> (el_style st)) st) ;;
     modify (λ st, with_kids
       (update_in (set_style "pointer-events" "auto") dialog_sel (el_kids st)) st)).

(** Lines 181-186 *)
Definition auto_buttons (s : gmap string value) : M unit :=
  when (settingIsTrue (field s "drupalAutoButtons"))
    (h <- gets store ;;
     len <- lift (length_of h (field s "buttons")) ;;
     positive <- lift (gt_zero len) ;;
     when positive (updateButtons (field s "buttons"))).

Definition openDialog (settings : value) : M unit :=
  d <- gets drupalSettings_dialog ;;
  settings <- extend [d; options; settings] ;;
  s <- read settings ;;
  dispatchDialogEvent "beforecreate" (VRef settings) ;;
  emit (Trigger "dialog:beforecreate" (VRef settings)) ;;
  when (negb (strict_eq (field s "dialogClasses") VUndef))
    (h <- gets store ;;
     names <- lift (classesToArray h (field s "dialogClasses")) ;;
     modify (λ st, with_kids
       (update_in
          (map_class (λ _, Classes.addClass names
                             (Classes.addClass ["modal-dialog"] None)))
          dialog_sel (el_kids st)) st)) ;;
  h <- gets store ;;
  json <- lift (match JSON_stringify H h (VRef settings) with
                | Some j => Ok j
                | None => Throw (TypeError "Converting circular structure to JSON")
                end) ;;
  set_attr "data-settings" json ;;
  add_header s ;;
  make_static s ;;
  make_non_modal s ;;
  auto_buttons s ;;
  when (has_modal H)
    (emit (Modal (VRef settings)) ;;
     emit (Modal (VStr "show"))) ;;
  s' <- read settings ;;
  let originalResizeSetting := field s' "autoResize" in
  write settings "autoResize" (VBool false) ;;
  dispatchDialogEvent "aftercreate" (VRef settings) ;;
  write settings "autoResize" originalResizeSetting.

(** Lines 199-205.  The modal library may call the [hide.bs.modal] listener
    while it hides; that is [on_hide] below, which leaves the handle alone. *)
Definition closeDialog (value : value) : M unit :=
  when (has_modal H) (emit (Modal (VStr "hide"))) ;;
  modify (λ st, with_dialog (dialog_open st) value st) ;;
  modify (λ st, with_dialog (VBool false) (dialog_returnValue st) st).

(** The methods of the handle. *)
Definition show : M unit :=
  l <- alloc (CObj {[ "modal" := VBool false ]}) ;;
  openDialog (VRef l).

Definition showModal : M unit :=
  l <- alloc (CObj {[ "modal" := VBool true ]}) ;;
  openDialog (VRef l).

Definition close : M unit :=
  l <- alloc (CObj ∅) ;;
  closeDialog (VRef l).

(** The listeners bound to [hide.bs.modal] and [hidden.bs.modal]; the modal
    library calls them. *)
Definition on_hide : M unit := dispatchDialogEvent "beforeclose" VUndef.
Definition on_hidden : M unit := dispatchDialogEvent "afterclose" VUndef.

(** [Drupal.dialog(element, options)]: the handle starts closed. *)
Definition create : M unit :=
  modify (with_dialog (VBool false) VUndef).

(** What a caller, or the modal library, can do with a handle. *)
Inductive call :=
| CallShow
| CallShowModal
| CallClose
| CallUpdateButtons (buttons : value)
| FireHide
| FireHidden.

Definition perform (c : call) : M unit :=
  match c with
  | CallShow => show
  | CallShowModal => showModal
  | CallClose => close
  | CallUpdateButtons buttons => updateButtons buttons
  | FireHide => on_hide
  | FireHidden => on_hidden
  end.

(** A caller goes on after an operation that threw. *)
Fixpoint run (cs : list call) (st : state) : state :=
  match cs with
  | [] => st
  | c :: cs' => run cs' (perform c st).2
  end.

End Instance.

End Dialog.

Export Dialog.

(** * Vocabulary of the properties *)

Local Open Scope js_scope.

(** ** Outcomes and invariants of operations *)

(** [wp m Q st]: running [m] from [st] ends in an outcome and a state that
    satisfy [Q]. *)
Definition wp {A} (m : M A) (Q : outcome A → state → Prop) (st : state) : Prop :=
  Q (m st).1 (m st).2.


(** [keeps f m]: [m] leaves the component [f] of the state as it is, whatever
    the outcome. *)
Definition keeps {A X} (f : state → X) (m : M A) : Prop :=
  ∀ st, f (m st).2 = f st.

(** [pres P m]: [m] keeps [P], whatever the outcome. *)
Definition pres {A} (P : state → Prop) (m : M A) : Prop :=
  ∀ st, P st → P (m st).2.

(** [yields P m Q]: [m] keeps [P] and every value it returns satisfies [Q]. *)
Definition yields {A} (P : state → Prop) (m : M A) (Q : A → Prop) : Prop :=
  ∀ st, P st → P (m st).2 ∧ ∀ a, (m st).1 = Ok a → Q a.

(** A component of the state that does not depend on the store, the trace,
    the subtree, the attributes or the style of the element. *)
Definition ignores_store {X} (f : state → X) : Prop :=
  ∀ h st, f (with_store h st) = f st.

Definition ignores_trace {X} (f : state → X) : Prop :=
  ∀ t st, f (with_trace t st) = f st.

Definition ignores_kids {X} (f : state → X) : Prop :=
  ∀ ks st, f (with_kids ks st) = f st.

Definition ignores_attrs {X} (f : state → X) : Prop :=
  ∀ a st, f (with_attrs a st) = f st.

Definition ignores_style {X} (f : state → X) : Prop :=
  ∀ a st, f (with_style a st) = f st.

(** The cells of [h0] are in the store, unchanged. *)
Definition holds (h0 : heap) (st : state) : Prop := h0 `prefix_of` store st.

(** The store still has the cells of [h], and [drupalSettings.dialog] is
    [d]. *)
Definition anchored (h : heap) (d : value) (st : state) : Prop :=
  holds h st ∧ drupalSettings_dialog st = d.

(** ** Option gates *)

(** The values that switch a gate on. *)
Definition enabled (v : value) : Prop := v = VBool true ∨ v = VStr "true".

(** ** The [aftercreate] notification *)

(** The settings argument and the view of an [aftercreate] notification, by
    either dispatch mechanism. *)
Definition aftercreate_view (e : event) : option (value * snapshot) :=
  match e with
  | Trigger name s seen =>
      if String.eqb name "dialog:aftercreate" then Some (s, seen) else None
  | Dispatch type s seen =>
      if String.eqb type "aftercreate" then Some (s, seen) else None
  | Modal _ _ => None
  end.

(** An [aftercreate] listener finds [autoResize === false] in the settings
    object it is given. *)
Definition suppressed (e : event) : Prop :=
  match aftercreate_view e with
  | Some (VRef l, seen) =>
      ∃ m, seen_store seen !! l = Some (CObj m) ∧ field m "autoResize" = VBool false
  | Some _ => False
  | None => True
  end.

(** Every call made since the trace was [t0] is [suppressed]. *)
Definition quiet_since (t0 : list event) (st : state) : Prop :=
  ∃ new, trace st = (t0 ++ new)%list ∧ Forall suppressed new.

(** The part of [openDialog] between the merge and the read of
    [settings.autoResize] keeps the settings object and notifies no
    [aftercreate] listener. *)
Definition settled (h : heap) (t0 : list event) (st : state) : Prop :=
  holds h st ∧ quiet_since t0 st.

(** [openDialog] has dispatched [aftercreate] last, on the merged settings
    object [l], whose [autoResize] was [false] then and is now again what the
    merge made it; its other fields are as merged. *)
Definition notified_and_restored (options settings : value) (st st' : state)
  : Prop :=
  ∃ (l : loc) (m m' : gmap string value) pre e seen,
    extend_fields (store st) [drupalSettings_dialog st; options; settings] = Ok m
    ∧ trace st' = (trace st ++ pre ++ [e])%list
    ∧ aftercreate_view e = Some (VRef l, seen)
    ∧ (∃ ms, seen_store seen !! l = Some (CObj ms)
             ∧ field ms "autoResize" = VBool false)
    ∧ store st' !! l = Some (CObj m')
    ∧ ∀ k, field m' k = field m k.

(** ** The element and its classes *)


(** The element's two modal attributes. *)
Definition modal_attrs (st : state) : option string * option string :=
  (el_attrs st !! "data-bs-backdrop", el_attrs st !! "data-bs-keyboard").

(** What [show()] leaves on the element itself. *)
Definition non_modal_marks (st : state) : Prop :=
  modal_attrs st = (Some "false", Some "true")
  ∧ el_style st !! "pointer-events" = Some "none".

(** The class list of a node: the tokens of its class attribute. *)
Definition class_list (n : node) : list string :=
  Classes.tokens (default "" (class_of n)).

Definition no_white (t : string) : bool :=
  all_chars (λ c, negb (Classes.is_html_white c)) t.

(** A class name as [classesToArray] produces them. *)
Definition proper (t : string) : Prop := t ≠ "" ∧ no_white t = true.

(** ** Footers *)


(** The subtree after lines 111-118, given the footer built. *)
Definition replaced (footer : node) (ks : list node) : list node :=
  let cleaned :=
    if 0 <? Z.of_nat (List.length (select_in footer_sel ks))
    then remove_in footer_sel ks else ks in
  if negb (bool_decide (kids_of footer = []))
  then update_in (append_kids [footer]) content_sel cleaned
  else cleaned.

(** ** Settings and buttons of the documented types *)

(** A field that is absent or a string. *)
Definition text_like (v : value) : Prop := v = VUndef ∨ ∃ s, v = VStr s.

(** An attribute of a ButtonSpec: a plain name and a string. *)
Definition plain_attr (k : string) (v : value) : Prop :=
  attr_name_ok k = true ∧ ∃ s, v = VStr s.



(** What [openDialog] does once the element is configured: lines 181-196. *)
Definition open_tail (H : host) (options : value) (l : loc)
    (m : gmap string value) : M unit :=
  auto_buttons H options m ;;
  when (has_modal H) (emit (Modal (VRef l)) ;; emit (Modal (VStr "show"))) ;;
  s' <- read l ;;
  write l "autoResize" (VBool false) ;;
  dispatchDialogEvent H "aftercreate" (VRef l) ;;
  write l "autoResize" (field s' "autoResize").

(** ** The calls an operation makes *)

(** A call without what its receiver could observe. *)
Inductive mark :=
| Triggered (name : string) (settings : value)
| Dispatched (type : string) (settings : value)
| ModalCalled (arg : value).

Definition mark_of (e : event) : mark :=
  match e with
  | Trigger n s _ => Triggered n s
  | Dispatch t s _ => Dispatched t s
  | Modal a _ => ModalCalled a
  end.

Definition marks (st : state) : list mark := mark_of <$> trace st.

(** How [dispatchDialogEvent] announces [ty] with a settings value. *)
Definition announced (H : host) (ty : string) (s : value) : mark :=
  if has_DrupalDialogEvent H then Dispatched ty s
  else Triggered ("dialog:" +:+ ty) s.

(** The two [beforecreate] notifications of lines 137-139. *)
Definition calls_before (H : host) (l : loc) : list mark :=
  [announced H "beforecreate" (VRef l); Triggered "dialog:beforecreate" (VRef l)].

(** The calls of an [openDialog] that returns, on the settings object [l]. *)
Definition calls_of_open (H : host) (l : loc) : list mark :=
  (calls_before H l
   ++ (if has_modal H then [ModalCalled (VRef l); ModalCalled (VStr "show")] else [])
   ++ [announced H "aftercreate" (VRef l)])%list.

(** What the receiver of a call could observe. *)
Definition view (e : event) : snapshot :=
  match e with
  | Trigger _ _ seen | Dispatch _ _ seen | Modal _ seen => seen
  end.

(** ** The handle *)

(** [returnValue] is [undefined], or an object without properties. *)
Definition unset_or_empty (st : state) : Prop :=
  dialog_returnValue st = VUndef
  ∨ ∃ l : loc, dialog_returnValue st = VRef l ∧ store st !! l = Some (CObj ∅).

(** ** Arguments of [updateButtons] *)

(** A value that is neither an object nor a function. *)
Definition primitive (v : value) : bool :=
  match v with
  | VRef _ | VFun _ => false
  | _ => true
  end.

(** Nothing to iterate over: a falsy primitive, or an array without items. *)
Definition no_buttons (h : heap) (v : value) : Prop :=
  (primitive v = true ∧ truthy v = false)
  ∨ ∃ l : loc, v = VRef l ∧ h !! l = Some (CArr []).

(** The button lines 87-109 build for the item [x]: a [button] element with
    the click handler of [x] bound to it and the markup of [x.text] inside
    (nothing when [x.text] is [undefined]); when [x] has no [attributes], its
    only attributes are [type="button"] and possibly [class]. *)
Definition built (H : host) (h : heap) (x : value) (b : node) : Prop :=
  ∃ a text ks,
    b = Elem "button" a ∅ [x] ks
    ∧ button_prop h x "text" = Ok text
    ∧ html H text [] = Ok ks
    ∧ (button_prop h x "attributes" = Ok VUndef →
       a !! "type" = Some "button"
       ∧ ∀ k, k ≠ "type" → k ≠ "class" → a !! k = None).

(** ** The element after [openDialog] *)

(** Lines 141-146 on one [.modal-dialog] node: its class attribute is set
    anew from [modal-dialog] and the class names of [dialogClasses]. *)
Definition reset_classes (names : list string) (n : node) : node :=
  map_class (λ _, Classes.addClass names (Classes.addClass ["modal-dialog"] None)) n.

(** The subtree after lines 141-146, by the merged [dialogClasses]. *)
Definition after_reset (dialogClasses : value) (ks : list node) : list node :=
  match dialogClasses with
  | VStr s => update_in (reset_classes (Classes.tokens s)) dialog_sel ks
  | _ => ks
  end.

(** The class lists of the element's children. *)
Definition child_classes (st : state) : list (option string) :=
  class_of <$> el_kids st.

(** A child that carries [modal-dialog] has exactly the class names [names];
    another child has the class attribute it had. *)
Definition classes_reset (names : list string) (n n' : node) : Prop :=
  if has_class "modal-dialog" n then class_list n' = names
  else class_of n' = class_of n.

(** ** The hide listeners *)

(** What a listener bound by lines 221-227 does, for the event type [ty]: it
    returns, it makes one call, and it leaves the handle, the element and the
    default options alone.  Without [DrupalDialogEvent] the call is the jQuery
    trigger [dialog:ty] with [undefined] for settings and the store is as it
    was; with it, the call dispatches an event of type [ty] whose settings are
    an object made for the occasion, without properties. *)
Definition announces_without_settings (H : host) (ty : string) (m : M unit)
    (st : state) : Prop :=
  (m st).1 = Ok tt
  ∧ (∃ seen, trace (m st).2 = (trace st ++ [seen])%list
             ∧ view seen = snap (m st).2
             ∧ mark_of seen
               = announced H ty (if has_DrupalDialogEvent H
                                 then VRef (List.length (store st)) else VUndef))
  ∧ store (m st).2
    = (if has_DrupalDialogEvent H then store st ++ [CObj ∅] else store st)%list
  ∧ (dialog_open (m st).2, dialog_returnValue (m st).2)
    = (dialog_open st, dialog_returnValue st)
  ∧ (el_attrs (m st).2, el_style (m st).2, el_kids (m st).2)
    = (el_attrs st, el_style st, el_kids st)
  ∧ drupalSettings_dialog (m st).2 = drupalSettings_dialog st.

(** ** Buttons *)

Definition attrs_of (n : node) : gmap string string :=
  match n with
  | Elem _ a _ _ _ => a
  | Text _ => ∅
  end.

(** What [.attr(name, text)] leaves under [name]: the name itself for a
    boolean attribute, otherwise the text. *)
Definition rendered (k s : string) : string := if is_bool_attr k then k else s.


(** ** Footers, once more *)


(** ** What the operations tolerate *)











(** ** Examples: hosts, pages and buttons *)

(** A host whose serialisation always succeeds, whose parser keeps the markup
    as text, and which has the modal plugin but no [DrupalDialogEvent]. *)
Definition plain_host : host :=
  Host (λ _ _, Some "{}") (λ s, [Text s]) (λ s, s) true false.

(** The same with the typed event constructor and without the modal plugin. *)
Definition bare_host : host :=
  Host (λ _ _, Some "{}") (λ s, [Text s]) (λ s, s) false true.

(** [.modal-dialog > .modal-content], the skeleton the element is expected to
    hold. *)
Definition skeleton : list node :=
  [Elem "div" {[ "class" := "modal-dialog" ]} ∅ []
     [Elem "div" {[ "class" := "modal-content" ]} ∅ [] []]].

(** The page after the file is loaded and the factory called on an element
    holding [ks], with the objects [cells] created by the caller. *)
Definition page (cells : list cell) (ks : list node) : state :=
  let st := (load (State [] VUndef VUndef VUndef ∅ ∅ ks [])).2 in
  (create (with_store (store st ++ cells) st)).2.




(** The skeleton with an old footer, and two button objects given to
    [updateButtons] as an array. *)
Definition old_footer : node :=
  Elem "div" {[ "class" := "modal-footer" ]} ∅ [] [Text "old"].

Definition footed_skeleton : list node :=
  [Elem "div" {[ "class" := "modal-dialog" ]} ∅ []
     [Elem "div" {[ "class" := "modal-content" ]} ∅ [] [old_footer]]].

Definition ok_cancel : list cell :=
  [CObj {[ "text" := VStr "OK" ]};
   CObj (<[ "class" := VStr "btn-secondary" ]> {[ "text" := VStr "Cancel" ]});
   CArr [VRef 1%nat; VRef 2%nat]].

(** A page whose factory options switch [drupalAutoButtons] on and give no
    buttons. *)
Definition auto_without_buttons : state :=
  page [CObj {[ "drupalAutoButtons" := VBool true ]}] skeleton.

(** The scenario of the specification: a title, one button, and
    [drupalAutoButtons] on. *)
Definition hi_ok : list cell :=
  [CObj {[ "text" := VStr "OK" ]};
   CArr [VRef 1%nat];
   CObj (<[ "title" := VStr "Hi" ]>
         (<[ "drupalAutoButtons" := VBool true ]> {[ "buttons" := VRef 2%nat ]}))].

(** A host on which serialising the settings throws, as it does on a cyclic
    structure. *)
Definition cyclic_host : host :=
  Host (λ _ _, None) (λ s, [Text s]) (λ s, s) true false.

(** Factory options that ask for a modal dialog and leave [dialogClasses]
    [undefined]. *)
Definition modal_options : list cell :=
  [CObj (<[ "modal" := VBool true ]> {[ "dialogClasses" := VUndef ]})].

(** Factory options with classes for the dialog. *)
Definition large_options : list cell :=
  [CObj {[ "dialogClasses" := VStr "modal-lg modal-lg wide" ]}].

(** A skeleton whose [.modal-dialog] has classes of its own. *)
Definition faded_skeleton : list node :=
  [Elem "div" {[ "class" := "fade modal-dialog" ]} ∅ []
     [Elem "div" {[ "class" := "modal-content" ]} ∅ [] []];
   Elem "p" {[ "class" := "note" ]} ∅ [] []].

(** A [.modal-content] outside any [.modal-dialog]. *)
Definition loose_content : list node :=
  [Elem "div" {[ "class" := "modal-content" ]} ∅ [] [old_footer]].

(** A submit button that is disabled. *)
Definition submit_button : heap :=
  [CObj (<[ "attributes" := VRef 1%nat ]> {[ "text" := VStr "Send" ]});
   CObj (<[ "type" := VStr "submit" ]> {[ "disabled" := VStr "yes" ]})].

Definition send_button : node :=
  Elem "button" (<[ "disabled" := "disabled" ]> {[ "type" := "submit" ]}) ∅
    [VRef 0%nat] [Text "Send"].

(** Factory options for a static dialog. *)
Definition static_options : list cell :=
  [CObj {[ "dialogStatic" := VStr "true" ]}].



(** * Properties *)

(** ** Reasoning about operations *)

Lemma wp_bind {A B} (m : M A) (k : A → M B) Q st :
  wp m (λ o st', match o with
                 | Ok a => wp (k a) Q st'
                 | Throw e => Q (Throw e) st'
                 | Unmodelled => Q Unmodelled st'
                 end) st →
  wp (bind m k) Q st.
Proof.
  unfold wp, bind. destruct (m st) as [[a|e|] st']; simpl; auto.
Qed.

Lemma wp_mono {A} (m : M A) (Q Q' : outcome A → state → Prop) st :
  wp m Q st → (∀ o st', Q o st' → Q' o st') → wp m Q' st.
Proof. unfold wp. auto. Qed.

Lemma wp_when (b : bool) (m : M unit) Q st :
  (b = true → wp m Q st) → (b = false → Q (Ok tt) st) → wp (when b m) Q st.
Proof. destruct b; simpl; intros Ht Hf; [by apply Ht|by apply Hf]. Qed.

Lemma wp_lift {A} (o : outcome A) Q st : Q o st → wp (lift o) Q st.
Proof. auto. Qed.

Lemma keeps_ret {A X} (f : state → X) (a : A) : keeps f (ret a).
Proof. by intros st. Qed.

Lemma keeps_lift {A X} (f : state → X) (o : outcome A) : keeps f (lift o).
Proof. by intros st. Qed.

Lemma keeps_gets {A X} (f : state → X) (g : state → A) : keeps f (gets g).
Proof. by intros st. Qed.

Lemma keeps_bind {A B X} (f : state → X) (m : M A) (k : A → M B) :
  keeps f m → (∀ a, keeps f (k a)) → keeps f (bind m k).
Proof.
  intros Hm Hk st. unfold bind. specialize (Hm st).
  destruct (m st) as [[a|e|] st']; simpl in *; try done.
  by rewrite Hk.
Qed.

Lemma keeps_when {X} (f : state → X) (b : bool) (m : M unit) :
  keeps f m → keeps f (when b m).
Proof. destruct b; simpl; auto using keeps_ret. Qed.

Lemma keeps_if {A X} (f : state → X) (b : bool) (m1 m2 : M A) :
  keeps f m1 → keeps f m2 → keeps f (if b then m1 else m2).
Proof. by destruct b. Qed.

Lemma keeps_modify {X} (f : state → X) (g : state → state) :
  (∀ st, f (g st) = f st) → keeps f (modify g).
Proof. intros Hg st. apply Hg. Qed.

Lemma keeps_read {X} (f : state → X) l : keeps f (read l).
Proof. intros st. unfold read. by repeat case_match. Qed.

Lemma keeps_emit {X} (f : state → X) e : ignores_trace f → keeps f (emit e).
Proof. intros Hf st. apply Hf. Qed.

Lemma keeps_alloc {X} (f : state → X) c : ignores_store f → keeps f (alloc c).
Proof. intros Hf st. apply Hf. Qed.

Lemma keeps_write {X} (f : state → X) l k v :
  ignores_store f → keeps f (write l k v).
Proof.
  intros Hf st. unfold write. repeat case_match; simpl; auto.
Qed.

Lemma keeps_extend {X} (f : state → X) sources :
  ignores_store f → keeps f (extend sources).
Proof.
  intros Hf. unfold extend.
  repeat (apply keeps_bind; [|intros ?]);
    auto using keeps_gets, keeps_lift, keeps_alloc.
Qed.

(** One step of a frame proof: a known operation first, the structure of the
    program otherwise. *)
Ltac keeps_leaf :=
  first
    [ apply keeps_ret | apply keeps_lift | apply keeps_gets | apply keeps_read
    | apply keeps_extend; assumption
    | apply keeps_alloc; assumption
    | apply keeps_write; assumption
    | apply keeps_emit; assumption
    | apply keeps_modify; intros ?; solve [auto] ].

Ltac keeps_struct :=
  first
    [ apply keeps_when
    | apply keeps_if
    | apply keeps_bind; [|intros ?] ].

Section Frames.

Context (H : host) (options : value).
Context {X : Type} (f : state → X).

Lemma keeps_dispatchDialogEvent ty s :
  ignores_store f → ignores_trace f → keeps f (dispatchDialogEvent H ty s).
Proof.
  intros Hs Ht. unfold dispatchDialogEvent.
  repeat first [keeps_leaf | keeps_struct].
Qed.

Lemma keeps_updateButtons buttons :
  ignores_store f → ignores_kids f → keeps f (updateButtons H options buttons).
Proof.
  intros Hs Hk. unfold updateButtons.
  repeat first [keeps_leaf | keeps_struct].
Qed.

Lemma keeps_auto_buttons s :
  ignores_store f → ignores_kids f → keeps f (auto_buttons H options s).
Proof.
  intros Hs Hk. unfold auto_buttons.
  repeat first [keeps_leaf | by apply keeps_updateButtons | keeps_struct].
Qed.

Lemma keeps_add_header s : ignores_kids f → keeps f (add_header H s).
Proof.
  intros Hk. unfold add_header.
  repeat first [keeps_leaf | keeps_struct].
Qed.

Lemma keeps_set_attr k v : ignores_attrs f → keeps f (set_attr k v).
Proof. intros Ha. unfold set_attr. keeps_leaf. Qed.

Lemma keeps_make_static s : ignores_attrs f → keeps f (make_static s).
Proof.
  intros Ha. unfold make_static.
  repeat first [by apply keeps_set_attr | keeps_struct].
Qed.

Lemma keeps_make_non_modal s :
  ignores_attrs f → ignores_style f → ignores_kids f →
  keeps f (make_non_modal s).
Proof.
  intros Ha Hs Hk. unfold make_non_modal.
  repeat first [by apply keeps_set_attr | keeps_leaf | keeps_struct].
Qed.

Lemma keeps_openDialog arg :
  ignores_store f → ignores_trace f → ignores_kids f → ignores_attrs f →
  ignores_style f → keeps f (openDialog H options arg).
Proof.
  intros Hs Ht Hk Ha Hy. unfold openDialog.
  repeat first
    [ by apply keeps_dispatchDialogEvent | by apply keeps_set_attr
    | by apply keeps_add_header | by apply keeps_make_static
    | by apply keeps_make_non_modal | by apply keeps_auto_buttons
    | keeps_leaf | keeps_struct ].
Qed.

End Frames.

(** ** The handle *)

Section Handle.

Context (H : host) (options : value).

Lemma ignores_store_open : ignores_store dialog_open.
Proof. done. Qed.
Lemma ignores_trace_open : ignores_trace dialog_open.
Proof. done. Qed.
Lemma ignores_kids_open : ignores_kids dialog_open.
Proof. done. Qed.
Lemma ignores_attrs_open : ignores_attrs dialog_open.
Proof. done. Qed.
Lemma ignores_style_open : ignores_style dialog_open.
Proof. done. Qed.

Lemma show_keeps_open : keeps dialog_open (show H options).
Proof.
  unfold show. apply keeps_bind; [by apply keeps_alloc|intros l].
  by apply keeps_openDialog.
Qed.

Lemma showModal_keeps_open : keeps dialog_open (showModal H options).
Proof.
  unfold showModal. apply keeps_bind; [by apply keeps_alloc|intros l].
  by apply keeps_openDialog.
Qed.

Lemma closeDialog_result v st :
  closeDialog H v st =
    (Ok tt,
     with_dialog (VBool false) v
       (if has_modal H
        then with_trace (trace st ++ [Modal (VStr "hide") (snap st)]) st
        else st)).
Proof. unfold closeDialog. by destruct (has_modal H). Qed.

Lemma perform_closed c st :
  dialog_open st = VBool false →
  dialog_open (perform H options c st).2 = VBool false.
Proof.
  intros Hst. destruct c; simpl.
  - by rewrite show_keeps_open.
  - by rewrite showModal_keeps_open.
  - unfold close, bind, alloc. by rewrite closeDialog_result.
  - by rewrite keeps_updateButtons.
  - unfold on_hide. by rewrite keeps_dispatchDialogEvent.
  - unfold on_hidden. by rewrite keeps_dispatchDialogEvent.
Qed.

(** C3.  [closeDialog(value)] returns normally and leaves [open === false]
    and [returnValue === value] in the handle, for every value, whatever the
    state and whether or not the element has the modal capability. *)
Theorem closeDialog_stores_value (v : value) (st : state) :
  (closeDialog H v st).1 = Ok tt
  ∧ dialog_open (closeDialog H v st).2 = VBool false
  ∧ dialog_returnValue (closeDialog H v st).2 = v.
Proof. by rewrite closeDialog_result. Qed.

(** C10.  [dialog.close()] passes [closeDialog] an object it has just
    created: afterwards [returnValue] is a reference to an empty object that
    did not exist before the call, and [open] is [false]. *)
Theorem close_returns_fresh_empty_object (st : state) :
  (close H st).1 = Ok tt
  ∧ dialog_open (close H st).2 = VBool false
  ∧ ∃ l : loc,
      dialog_returnValue (close H st).2 = VRef l
      ∧ store st !! l = None
      ∧ store (close H st).2 !! l = Some (CObj ∅).
Proof.
  unfold close, bind, alloc. rewrite closeDialog_result. simpl.
  split_and!; try done.
  exists (List.length (store st)). split_and!; try done.
  - apply lookup_ge_None_2. lia.
  - destruct (has_modal H); simpl; by rewrite list_lookup_middle.
Qed.

(** C4.  A handle starts with [open] false, and no sequence of [show],
    [showModal], [close] and [updateButtons] calls, interleaved with the
    modal library's hide notifications, leaves it with another value:
    [show] and [showModal] do not write [open] at all. *)
Theorem open_is_never_true (cs : list call) (st : state) :
  dialog_open (create st).2 = VBool false
  ∧ dialog_open (run H options cs (create st).2) = VBool false
  ∧ keeps dialog_open (show H options)
  ∧ keeps dialog_open (showModal H options).
Proof.
  split_and!; [done| |apply show_keeps_open|apply showModal_keeps_open].
  assert (Hgen : ∀ s, dialog_open s = VBool false →
                      dialog_open (run H options cs s) = VBool false).
  { induction cs as [|c cs IH]; intros s Hs; [done|].
    simpl. apply IH. by apply perform_closed. }
  by apply Hgen.
Qed.

End Handle.

(** ** The gates of [openDialog] *)

Lemma settingIsTrue_enabled v : settingIsTrue v = true ↔ enabled v.
Proof.
  unfold settingIsTrue, enabled. split.
  - destruct v as [| |[]| |s| |]; simpl; try done; auto.
    intros Hs%String.eqb_eq. subst. auto.
  - by intros [->| ->].
Qed.

Lemma settingIsTrue_disabled v : settingIsTrue v = false ↔ ¬ enabled v.
Proof.
  rewrite <-settingIsTrue_enabled. by destruct (settingIsTrue v).
Qed.


(** ** Invariants of operations *)

Lemma pres_ret {A} P (a : A) : pres P (ret a).
Proof. by intros st. Qed.

Lemma pres_lift {A} P (o : outcome A) : pres P (lift o).
Proof. by intros st. Qed.

Lemma pres_gets {A} P (g : state → A) : pres P (gets g).
Proof. by intros st. Qed.

Lemma pres_read P l : pres P (read l).
Proof. intros st. unfold read. by repeat case_match. Qed.

Lemma pres_modify P (g : state → state) : (∀ st, P st → P (g st)) → pres P (modify g).
Proof. intros Hg st. apply Hg. Qed.

Lemma pres_bind {A B} P (m : M A) (k : A → M B) :
  pres P m → (∀ a, pres P (k a)) → pres P (bind m k).
Proof.
  intros Hm Hk st HP. unfold bind. specialize (Hm st HP).
  destruct (m st) as [[a|e|] st']; simpl in *; try done.
  by apply Hk.
Qed.

Lemma pres_bind_yields {A B} P (Q : A → Prop) (m : M A) (k : A → M B) :
  yields P m Q → (∀ a, Q a → pres P (k a)) → pres P (bind m k).
Proof.
  intros Hm Hk st HP. unfold bind. destruct (Hm st HP) as [HP' HQ].
  destruct (m st) as [[a|e|] st']; simpl in *; try done.
  apply Hk; auto.
Qed.

Lemma pres_when P (b : bool) (m : M unit) : pres P m → pres P (when b m).
Proof. destruct b; simpl; auto using pres_ret. Qed.

Lemma pres_if {A} P (b : bool) (m1 m2 : M A) :
  pres P m1 → pres P m2 → pres P (if b then m1 else m2).
Proof. by destruct b. Qed.

Lemma holds_alloc h0 c : yields (holds h0) (alloc c) (λ l, List.length h0 ≤ l)%nat.
Proof.
  intros st Hst. unfold alloc, holds in *. simpl. split.
  - by apply prefix_app_r.
  - intros a [= <-]. by apply prefix_length.
Qed.

Lemma holds_write h0 l k v : (List.length h0 ≤ l)%nat → pres (holds h0) (write l k v).
Proof.
  intros Hl st [t Ht]. unfold write, holds.
  repeat case_match; simpl; try by exists t.
  rewrite Ht, insert_app_r_alt by done. by eexists.
Qed.

Lemma holds_extend h0 sources :
  yields (holds h0) (extend sources) (λ l, List.length h0 ≤ l)%nat.
Proof.
  intros st Hst. unfold extend, bind, gets, lift.
  destruct (extend_fields (store st) sources) as [m| |]; simpl; try done.
  by apply (holds_alloc h0 (CObj m) st).
Qed.

Lemma holds_lookup h0 st l c : holds h0 st → h0 !! l = Some c → store st !! l = Some c.
Proof. intros [t ->] Hl. by apply lookup_app_l_Some. Qed.

Ltac pres_leaf :=
  first
    [ apply pres_ret | apply pres_lift | apply pres_gets | apply pres_read
    | apply pres_modify; intros ? ?; assumption ].

Ltac pres_struct :=
  first
    [ apply pres_when
    | apply pres_if
    | apply pres_bind; [|intros ?] ].

Section Store.

Context (H : host) (options : value) (h0 : heap).

Lemma holds_alloc_pres c : pres (holds h0) (alloc c).
Proof. intros st Hst. by apply holds_alloc. Qed.

Lemma holds_extend_pres sources : pres (holds h0) (extend sources).
Proof. intros st Hst. by apply holds_extend. Qed.

Lemma holds_emit e : pres (holds h0) (emit e).
Proof. by intros st Hst. Qed.

Lemma holds_dispatchDialogEvent ty s :
  pres (holds h0) (dispatchDialogEvent H ty s).
Proof.
  unfold dispatchDialogEvent.
  repeat first [apply holds_emit | apply holds_alloc_pres | pres_leaf | pres_struct].
Qed.

Lemma holds_updateButtons buttons :
  pres (holds h0) (updateButtons H options buttons).
Proof.
  unfold updateButtons.
  repeat first [apply holds_extend_pres | pres_leaf | pres_struct].
Qed.

Lemma holds_auto_buttons s : pres (holds h0) (auto_buttons H options s).
Proof.
  unfold auto_buttons.
  repeat first [apply holds_updateButtons | pres_leaf | pres_struct].
Qed.

Lemma holds_add_header s : pres (holds h0) (add_header H s).
Proof. unfold add_header. repeat first [pres_leaf | pres_struct]. Qed.

Lemma holds_make_static s : pres (holds h0) (make_static s).
Proof.
  unfold make_static, set_attr. repeat first [pres_leaf | pres_struct].
Qed.

Lemma holds_make_non_modal s : pres (holds h0) (make_non_modal s).
Proof.
  unfold make_non_modal, set_attr. repeat first [pres_leaf | pres_struct].
Qed.

Lemma holds_openDialog arg : pres (holds h0) (openDialog H options arg).
Proof.
  unfold openDialog.
  apply pres_bind; [pres_leaf|intros d].
  eapply pres_bind_yields; [apply holds_extend|intros settings Hsettings].
  unfold set_attr.
  repeat first
    [ apply holds_dispatchDialogEvent | apply holds_emit
    | apply holds_add_header | apply holds_make_static
    | apply holds_make_non_modal | apply holds_auto_buttons
    | by apply holds_write
    | pres_leaf | pres_struct ].
Qed.

End Store.

(** ** The defaults object *)

Section Defaults.

Context (H : host) (options : value).

Lemma holds_refl st : holds (store st) st.
Proof. by exists []; rewrite app_nil_r. Qed.

Lemma keeps_defaults_extend sources : keeps drupalSettings_dialog (extend sources).
Proof. by apply keeps_extend. Qed.

(** C7.  The merge reads the defaults and writes a new object: after
    [$.extend({}, ...)], after [openDialog] and after [updateButtons],
    [drupalSettings.dialog] is the same object with the same fields, and so
    is every other object that existed before the call. *)
Theorem merge_never_mutates_defaults (settings buttons : value)
    (sources : list value) (st : state) (d : loc) (c : cell) :
  drupalSettings_dialog st = VRef d →
  store st !! d = Some c →
  (drupalSettings_dialog (extend sources st).2 = VRef d
   ∧ store (extend sources st).2 !! d = Some c
   ∧ store st `prefix_of` store (extend sources st).2)
  ∧ (drupalSettings_dialog (openDialog H options settings st).2 = VRef d
     ∧ store (openDialog H options settings st).2 !! d = Some c
     ∧ store st `prefix_of` store (openDialog H options settings st).2)
  ∧ (drupalSettings_dialog (updateButtons H options buttons st).2 = VRef d
     ∧ store (updateButtons H options buttons st).2 !! d = Some c
     ∧ store st `prefix_of` store (updateButtons H options buttons st).2).
Proof.
  intros Hd Hc.
  pose proof (holds_extend_pres (store st) sources st (holds_refl st)) as H1.
  pose proof (holds_openDialog H options (store st) settings st (holds_refl st)) as H2.
  pose proof (holds_updateButtons H options (store st) buttons st (holds_refl st)) as H3.
  split_and!; try done.
  - by rewrite keeps_defaults_extend.
  - by eapply holds_lookup.
  - by rewrite keeps_openDialog.
  - by eapply holds_lookup.
  - by rewrite keeps_updateButtons.
  - by eapply holds_lookup.
Qed.

End Defaults.

Lemma merge_never_mutates_defaults_witness :
  store (openDialog plain_host VUndef (VRef 1%nat)
           (page [CObj {[ "modal" := VBool true ]}] skeleton)).2 !! 0%nat
  = Some (CObj default_options).
Proof.
  pose proof (merge_never_mutates_defaults plain_host VUndef (VRef 1%nat) VUndef []
                (page [CObj {[ "modal" := VBool true ]}] skeleton) 0%nat
                (CObj default_options) eq_refl eq_refl) as (_ & (_ & Hw & _) & _).
  exact Hw.
Defined.


(** ** Stepping through an operation *)

Lemma wp_gets_bind {A B} (g : state → A) (k : A → M B) Q st :
  wp (k (g st)) Q st → wp (bind (gets g) k) Q st.
Proof. done. Qed.

Lemma wp_modify_bind {B} (g : state → state) (k : unit → M B) Q st :
  wp (k tt) Q (g st) → wp (bind (modify g) k) Q st.
Proof. done. Qed.

Lemma wp_alloc_bind {B} (c : cell) (k : loc → M B) Q st :
  wp (k (List.length (store st))) Q (with_store (store st ++ [c]) st) →
  wp (bind (alloc c) k) Q st.
Proof. done. Qed.

Lemma wp_lift_bind {A B} (o : outcome A) (k : A → M B) Q st :
  match o with
  | Ok a => wp (k a) Q st
  | Throw e => Q (Throw e) st
  | Unmodelled => Q Unmodelled st
  end →
  wp (bind (lift o) k) Q st.
Proof. by destruct o. Qed.

Lemma wp_read_bind {B} l m (k : gmap string value → M B) Q st :
  store st !! l = Some (CObj m) → wp (k m) Q st → wp (bind (read l) k) Q st.
Proof. intros Hl. unfold wp, bind, read. by rewrite Hl. Qed.

Lemma wp_write_bind {B} l m key v (k : unit → M B) Q st :
  store st !! l = Some (CObj m) →
  wp (k tt) Q (with_store (<[l := CObj (<[key := v]> m)]> (store st)) st) →
  wp (bind (write l key v) k) Q st.
Proof. intros Hl. unfold wp, bind, write. by rewrite Hl. Qed.

Lemma wp_write l m key v Q st :
  store st !! l = Some (CObj m) →
  Q (Ok tt) (with_store (<[l := CObj (<[key := v]> m)]> (store st)) st) →
  wp (write l key v) Q st.
Proof. intros Hl. unfold wp, write. by rewrite Hl. Qed.

Lemma extend_run sources st :
  extend sources st =
    match extend_fields (store st) sources with
    | Ok m => (Ok (List.length (store st)), with_store (store st ++ [CObj m]) st)
    | Throw e => (Throw e, st)
    | Unmodelled => (Unmodelled, st)
    end.
Proof. unfold extend, bind, gets, lift. by destruct (extend_fields _ _). Qed.

Lemma wp_extend_bind {B} sources (k : loc → M B) Q st :
  (∀ m, extend_fields (store st) sources = Ok m →
        wp (k (List.length (store st))) Q (with_store (store st ++ [CObj m]) st)) →
  (∀ e, extend_fields (store st) sources = Throw e → Q (Throw e) st) →
  (extend_fields (store st) sources = Unmodelled → Q Unmodelled st) →
  wp (bind (extend sources) k) Q st.
Proof.
  intros Hok Hthrow Hun. unfold wp, bind. rewrite extend_run.
  destruct (extend_fields _ _); simpl; auto. by apply Hok.
Qed.

(** A step that keeps an invariant, whatever it does besides. *)
Lemma wp_inv_bind {A B} (I : state → Prop) (m : M A) (k : A → M B) Q st :
  I st → pres I m →
  (∀ a st', I st' → wp (k a) Q st') →
  (∀ e st', I st' → Q (Throw e) st') →
  (∀ st', I st' → Q Unmodelled st') →
  wp (bind m k) Q st.
Proof.
  intros HI Hm Hok Hthrow Hun. unfold wp, bind. specialize (Hm st HI).
  destruct (m st) as [[a|e|] st']; simpl in *; auto. by apply Hok.
Qed.

Lemma wp_inv {A} (I : state → Prop) (m : M A) (Q : outcome A → state → Prop) st :
  I st → pres I m → (∀ o st', I st' → Q o st') → wp m Q st.
Proof. intros HI Hm HQ. apply HQ. by apply Hm. Qed.

Lemma keeps_pres {A X} (f : state → X) (P : X → Prop) (m : M A) :
  keeps f m → pres (λ st, P (f st)) m.
Proof. intros Hm st HP. by rewrite Hm. Qed.

Lemma pres_and {A} (P1 P2 : state → Prop) (m : M A) :
  pres P1 m → pres P2 m → pres (λ st, P1 st ∧ P2 st) m.
Proof. intros H1 H2 st [? ?]. split; [by apply H1|by apply H2]. Qed.

(** ** What the [aftercreate] listeners see *)

Lemma quiet_emit t0 e :
  (∀ seen, aftercreate_view (e seen) = None) → pres (quiet_since t0) (emit e).
Proof.
  intros He st (new & Hnew & Hall). exists (new ++ [e (snap st)])%list.
  simpl. rewrite Hnew, app_assoc. split; [done|].
  apply Forall_app. split; [done|]. apply Forall_singleton.
  unfold suppressed. by rewrite He.
Qed.

Lemma quiet_keeps {A} t0 (m : M A) : keeps trace m → pres (quiet_since t0) m.
Proof. intros Hm. by apply (keeps_pres trace (λ t, ∃ new, t = (t0 ++ new)%list ∧ _)). Qed.

Section Quiet.

Context (H : host) (options : value) (t0 : list event).

Lemma quiet_dispatchDialogEvent ty s :
  ty ≠ "aftercreate" → pres (quiet_since t0) (dispatchDialogEvent H ty s).
Proof.
  intros Hty. unfold dispatchDialogEvent.
  apply pres_if.
  - apply quiet_emit. intros seen. simpl.
    change ("" +:+ ty) with ty. by destruct (String.eqb_spec ty "aftercreate").
  - apply pres_bind; [|intros s'].
    + apply quiet_keeps. apply keeps_if; [apply keeps_ret|].
      apply keeps_bind; [by apply keeps_alloc|intros ?; apply keeps_ret].
    + apply quiet_emit. intros seen. simpl.
      by destruct (String.eqb_spec ty "aftercreate").
Qed.

End Quiet.

(** ** [autoResize] around [aftercreate] *)

Section AutoResize.

Context (H : host) (options : value).

Lemma quiet_refl st : quiet_since (trace st) st.
Proof. exists []. by rewrite app_nil_r. Qed.

Lemma quiet_updateButtons t0 b : pres (quiet_since t0) (updateButtons H options b).
Proof. apply quiet_keeps. by apply keeps_updateButtons. Qed.

(** The part of [openDialog] between the merge and the read of
    [settings.autoResize] keeps the settings object and notifies no
    [aftercreate] listener. *)
Lemma emit_then_write e l k v st m :
  store st !! l = Some (CObj m) →
  (emit e ;; write l k v) st =
    (Ok tt, with_store (<[l := CObj (<[k := v]> m)]> (store st))
              (with_trace (trace st ++ [e (snap st)]) st)).
Proof. intros Hl. unfold bind, emit, modify, write. simpl. by rewrite Hl. Qed.

Ltac settled_pres :=
  apply pres_and;
  [ first [ apply holds_dispatchDialogEvent | apply holds_emit
          | apply holds_add_header | apply holds_make_static
          | apply holds_make_non_modal | apply holds_auto_buttons
          | unfold set_attr; repeat first [apply holds_emit | pres_leaf | pres_struct] ]
  | first [ by apply quiet_dispatchDialogEvent
          | by apply quiet_emit
          | solve [ apply quiet_keeps;
                    first [ by apply keeps_add_header | by apply keeps_make_static
                          | by apply keeps_make_non_modal | by apply keeps_auto_buttons
                          | by apply keeps_set_attr
                          | repeat first [keeps_leaf | keeps_struct] ] ]
          | solve [ repeat first [by apply quiet_emit | pres_struct] ] ] ].

(** C8.  Every [aftercreate] notification [openDialog] makes carries a
    settings object whose [autoResize] is [false] at that moment; and when
    [openDialog] returns, it has made that notification and the settings
    object has the [autoResize] (and every other field) the merge gave it. *)
Theorem autoResize_suppressed_for_aftercreate (settings : value) (st : state) :
  (∃ new, trace (openDialog H options settings st).2 = (trace st ++ new)%list
          ∧ Forall suppressed new)
  ∧ ((openDialog H options settings st).1 = Ok tt →
     notified_and_restored options settings st (openDialog H options settings st).2).
Proof.
  set (Q := λ (o : outcome unit) st',
    (∃ new, trace st' = (trace st ++ new)%list ∧ Forall suppressed new)
    ∧ (o = Ok tt → notified_and_restored options settings st st')).
  change (wp (openDialog H options settings) Q st).
  assert (Hfail : ∀ h o st', o ≠ Ok tt → settled h (trace st) st' → Q o st').
  { intros h o st' Ho [_ Hq]. by split. }
  unfold openDialog. apply wp_gets_bind.
  apply wp_extend_bind.
  2:{ intros e _. apply (Hfail (store st)); [done|]. split; [apply holds_refl|apply quiet_refl]. }
  2:{ intros _. apply (Hfail (store st)); [done|]. split; [apply holds_refl|apply quiet_refl]. }
  intros m Hm.
  set (l := List.length (store st)).
  set (st1 := with_store (store st ++ [CObj m]) st).
  apply (wp_read_bind _ m); [by apply list_lookup_middle|].
  assert (HI : settled (store st1) (trace st) st1).
  { split; [apply holds_refl|apply (quiet_refl st)]. }
  revert HI. generalize st1 at 2 3. intros st2 HI.
  assert (Hl : ∀ st', settled (store st1) (trace st) st' →
                      store st' !! l = Some (CObj m)).
  { intros st' [Hh _]. eapply holds_lookup; [exact Hh|].
    by apply list_lookup_middle. }
  clearbody st1.
  do 11 (eapply (wp_inv_bind (settled _ _));
    [ exact HI | settled_pres
    | clear dependent st2; intros ? st2 HI
    | intros ? ? HI'; eapply Hfail; [done|exact HI']
    | intros ? HI'; eapply Hfail; [done|exact HI'] ]).
  apply (wp_read_bind _ m); [by apply Hl|].
  apply (wp_write_bind _ m); [by apply Hl|].
  destruct HI as [Hh (new & Hnew & Hall)].
  assert (Hlen : (l < List.length (store st2))%nat).
  { apply lookup_lt_is_Some. rewrite Hl; [by eexists|]. split; [done|]. by exists new. }
  assert (Hseen : ∀ e : snapshot → event,
    (∀ seen, aftercreate_view (e seen) = Some (VRef l, seen)) →
    wp (emit e ;; write l "autoResize" (field m "autoResize")) Q
      (with_store (<[l:=CObj (<["autoResize":=VBool false]> m)]> (store st2)) st2)).
  { intros e He.
    set (st3 := with_store _ st2).
    set (seen := snap st3).
    unfold wp. rewrite (emit_then_write e l _ _ st3 (<["autoResize":=VBool false]> m))
      by (by apply list_lookup_insert_eq).
    simpl. fold seen.
    assert (Hsup : ∃ ms, seen_store seen !! l = Some (CObj ms)
                         ∧ field ms "autoResize" = VBool false).
    { eexists. split; [by apply list_lookup_insert_eq|].
      unfold field. by rewrite lookup_insert_eq. }
    split.
    - exists (new ++ [e seen])%list. simpl. rewrite Hnew, app_assoc. split; [done|].
      apply Forall_app. split; [done|]. apply Forall_singleton.
      unfold suppressed. by rewrite He.
    - intros _. exists l, m, (<["autoResize":=field m "autoResize"]>
                               (<["autoResize":=VBool false]> m)), new, (e seen), seen.
      split_and!; try done.
      + simpl. by rewrite Hnew, app_assoc.
      + simpl. apply list_lookup_insert_eq. by rewrite length_insert.
      + intros k. unfold field.
        destruct (decide (k = "autoResize")) as [->|Hk].
        * by rewrite lookup_insert_eq.
        * by rewrite !lookup_insert_ne. }
  unfold dispatchDialogEvent. destruct (has_DrupalDialogEvent H); simpl.
  - apply wp_bind. unfold wp at 1. simpl. by apply Hseen.
  - by apply Hseen.
Qed.

End AutoResize.

Lemma autoResize_suppressed_for_aftercreate_witness :
  notified_and_restored VUndef (VRef 1%nat)
    (page [CObj {[ "modal" := VBool true ]}] skeleton)
    (openDialog plain_host VUndef (VRef 1%nat)
       (page [CObj {[ "modal" := VBool true ]}] skeleton)).2.
Proof.
  pose proof (autoResize_suppressed_for_aftercreate plain_host VUndef (VRef 1%nat)
                (page [CObj {[ "modal" := VBool true ]}] skeleton)) as [_ Hw].
  apply Hw. vm_compute. reflexivity.
Defined.

(** ** Merged settings *)

Lemma enumerable_mono h h' v m :
  h `prefix_of` h' → enumerable h v = Ok m → enumerable h' v = Ok m.
Proof.
  intros [t ->]. destruct v as [| | | | |l|]; simpl; try done.
  destruct (h !! l) as [c|] eqn:Hl; [|done].
  by rewrite (lookup_app_l_Some _ _ _ _ Hl).
Qed.

Lemma extend_fields_two h a b m :
  extend_fields h [a; b] = Ok m ↔
  ∃ ma mb, enumerable h a = Ok ma ∧ enumerable h b = Ok mb
           ∧ m = copied mb ∪ (copied ma ∪ ∅).
Proof.
  unfold extend_fields. simpl. split.
  - destruct (enumerable h a) as [ma| |]; simpl; try done.
    destruct (enumerable h b) as [mb| |]; simpl; try done.
    intros [= <-]. by exists ma, mb.
  - intros (ma & mb & -> & -> & ->). done.
Qed.

Lemma extend_fields_three h a b c m :
  extend_fields h [a; b; c] = Ok m ↔
  ∃ ma mb mc, enumerable h a = Ok ma ∧ enumerable h b = Ok mb
              ∧ enumerable h c = Ok mc
              ∧ m = copied mc ∪ (copied mb ∪ (copied ma ∪ ∅)).
Proof.
  unfold extend_fields. simpl. split.
  - destruct (enumerable h a) as [ma| |]; simpl; try done.
    destruct (enumerable h b) as [mb| |]; simpl; try done.
    destruct (enumerable h c) as [mc| |]; simpl; try done.
    intros [= <-]. by exists ma, mb, mc.
  - intros (ma & mb & mc & -> & -> & -> & ->). done.
Qed.

Lemma copied_lookup_None m k : m !! k = None → copied m !! k = None.
Proof. intros Hk. unfold copied. by rewrite map_lookup_filter, Hk. Qed.

Lemma field_copied m k : k ≠ "__proto__" → field (copied m) k = field m k.
Proof.
  intros Hk. unfold field, copied. rewrite map_lookup_filter.
  destruct (m !! k) as [v|]; simpl; [|done].
  case_guard as Hg; simpl; [done|].
  destruct (decide (v = VUndef)) as [->|Hv]; [done|].
  destruct Hg. by split.
Qed.

Lemma field_union_l (m1 m2 : gmap string value) k v :
  m1 !! k = Some v → field (m1 ∪ m2) k = v.
Proof. intros Hk. unfold field. by rewrite (lookup_union_Some_l _ _ _ _ Hk). Qed.

Lemma field_union_r (m1 m2 : gmap string value) k :
  m1 !! k = None → field (m1 ∪ m2) k = field m2 k.
Proof. intros Hk. unfold field. by rewrite lookup_union_r. Qed.

Lemma copied_singleton_lookup k v :
  k ≠ "__proto__" → v ≠ VUndef →
  copied {[ k := v ]} !! k = Some v.
Proof.
  intros Hk Hv. unfold copied. apply map_lookup_filter_Some.
  split; [apply lookup_singleton_eq|done].
Qed.

(** ** Nodes *)

Lemma node_ind' (P : node → Prop) :
  (∀ t a s c ks, Forall P ks → P (Elem t a s c ks)) →
  (∀ s, P (Text s)) →
  ∀ n, P n.
Proof.
  intros HE HT. fix IH 1. intros [t a s c ks|s]; [|apply HT].
  apply HE. induction ks as [|k ks IHks]; constructor; [apply IH|apply IHks].
Qed.



(** ** Modal and non-modal opening *)

Section Modal.

Context (H : host) (options : value).

Lemma make_static_off m :
  settingIsTrue (field m "dialogStatic") = false → make_static m = ret tt.
Proof. intros Hoff. unfold make_static. by rewrite Hoff. Qed.

Lemma make_non_modal_off m :
  truthy (field m "modal") = true → make_non_modal m = ret tt.
Proof. intros Hon. unfold make_non_modal. by rewrite Hon. Qed.


Lemma keeps_tail {X} (f : state → X) (l : loc) (m : gmap string value) :
  ignores_store f → ignores_trace f → ignores_kids f →
  keeps f
    (auto_buttons H options m ;;
     when (has_modal H) (emit (Modal (VRef l)) ;; emit (Modal (VStr "show"))) ;;
     s' <- read l ;;
     write l "autoResize" (VBool false) ;;
     dispatchDialogEvent H "aftercreate" (VRef l) ;;
     write l "autoResize" (field s' "autoResize")).
Proof.
  intros Hs Ht Hk.
  repeat first
    [ by apply keeps_auto_buttons | by apply keeps_dispatchDialogEvent
    | keeps_leaf | keeps_struct ].
Qed.


End Modal.


(** ** Class lists *)

Section ClassLists.

Import Classes.

Lemma append_nil_l s : "" +:+ s = s.
Proof. done. Qed.

Lemma append_cons c t s : String c t +:+ s = String c (t +:+ s).
Proof. done. Qed.

Lemma append_nil_r t : t +:+ "" = t.
Proof. induction t as [|c t IH]; [done|]. by rewrite append_cons, IH. Qed.


Lemma split_white_proper s :
  no_white (split_white s).1 = true ∧ Forall proper (split_white s).2.
Proof.
  induction s as [|c s [IHt IHts]]; simpl; [by split|].
  destruct (split_white s) as [t ts]. simpl in *.
  destruct (is_html_white c) eqn:Hc; simpl.
  - split; [done|]. unfold push. destruct t; [done|].
    constructor; [|done]. by split.
  - split; [|done]. unfold no_white. simpl. by rewrite Hc.
Qed.

Lemma tokens_proper s : Forall proper (tokens s).
Proof.
  unfold tokens. pose proof (split_white_proper s) as [Ht Hts].
  destruct (split_white s) as [t ts]. simpl in *.
  unfold push. destruct t; [done|]. constructor; [|done]. by split.
Qed.

Lemma split_white_prepend t s :
  no_white t = true →
  split_white (t +:+ s) = (t +:+ (split_white s).1, (split_white s).2).
Proof.
  induction t as [|c t IH]; intros Ht.
  - rewrite !append_nil_l. by destruct (split_white s).
  - apply andb_true_iff in Ht as [Hc Ht]. rewrite !append_cons. simpl.
    rewrite (IH Ht). apply negb_true_iff in Hc. by rewrite Hc.
Qed.

Lemma tokens_cons_join t l :
  proper t → tokens (t +:+ " " +:+ join " " l) = t :: tokens (join " " l).
Proof.
  intros [Hne Ht]. unfold tokens. rewrite split_white_prepend by done.
  rewrite append_cons, append_nil_l. simpl.
  destruct (split_white (join " " l)) as [t' ts'] eqn:E. simpl.
  rewrite append_nil_r. unfold push at 1. by destruct t.
Qed.

Lemma tokens_single t : proper t → tokens t = [t].
Proof.
  intros [Hne Ht]. unfold tokens.
  rewrite <-(append_nil_r t) at 1. rewrite split_white_prepend by done. simpl.
  rewrite append_nil_r. unfold push. by destruct t.
Qed.

Lemma tokens_join l : Forall proper l → tokens (join " " l) = l.
Proof.
  induction 1 as [|t l Ht Hl IH]; [done|].
  destruct l as [|t' l'].
  - simpl. by apply tokens_single.
  - change (join " " (t :: t' :: l')) with (t +:+ " " +:+ join " " (t' :: l')).
    rewrite tokens_cons_join by done. by rewrite IH.
Qed.

Lemma add_tokens_spec cur names :
  ∃ added,
    foldl add_token cur names = (cur ++ added)%list
    ∧ NoDup added
    ∧ ∀ t, t ∈ added ↔ t ∈ names ∧ t ∉ cur.
Proof.
  revert cur. induction names as [|n ns IH]; intros cur; simpl.
  - exists []. rewrite app_nil_r. split_and!; [done|constructor|].
    intros t. split; [by intros ?%elem_of_nil|by intros [?%elem_of_nil _]].
  - unfold add_token at 2. case_bool_decide as Hn.
    + destruct (IH cur) as (added & Heq & Hnd & Hin).
      exists added. split_and!; [done|done|].
      intros t. rewrite Hin, elem_of_cons. split; [intros [? ?]; auto|].
      intros [[->|?] Ht]; [done|auto].
    + destruct (IH (cur ++ [n])%list) as (added & Heq & Hnd & Hin).
      exists (n :: added). split_and!.
      * by rewrite Heq, <-app_assoc.
      * constructor; [|done]. rewrite Hin. intros [_ Hn'].
        apply Hn'. apply elem_of_app. right. by apply list_elem_of_singleton.
      * intros t. rewrite !elem_of_cons, Hin, elem_of_app, list_elem_of_singleton.
        split.
        -- intros [->|[Ht Hne]]; [auto|]. split; [auto|]. intros ?. apply Hne. auto.
        -- intros [[->|Ht] Hc]; [auto|].
           destruct (decide (t = n)) as [->|Htn]; [auto|].
           right. split; [done|]. by intros [?|?].
Qed.





End ClassLists.

(** ** The fallback classes of a button *)

Section Fallback.

Import Classes.

Lemma addClass_Some names c :
  addClass names (Some c) =
    Some (match names with
          | [] => c
          | _ => join " " (foldl add_token (tokens c) names)
          end).
Proof.
  unfold addClass. destruct names as [|n ns]; [done|]. simpl default.
  destruct (String.eqb_spec c (join " " (foldl add_token (tokens c) (n :: ns))));
    congruence.
Qed.



End Fallback.



(** ** Footers in the tree *)

Section Footers.



Lemma has_class_same c n n' : class_of n = class_of n' → has_class c n = has_class c n'.
Proof. unfold has_class. by intros ->. Qed.

Lemma step_same r n n' : class_of n = class_of n' → step r n = step r n'.
Proof.
  intros Hc. unfold step. destruct r as [|c [|c' r]]; try done.
  by rewrite (has_class_same c n n').
Qed.

Lemma hits_same r n n' : class_of n = class_of n' → hits r n = hits r n'.
Proof.
  intros Hc. unfold hits. destruct r as [|c [|c' r]]; try done.
  by apply has_class_same.
Qed.

Lemma class_of_update g r n :
  (∀ x, class_of (g x) = class_of x) → class_of (update g r n) = class_of n.
Proof.
  intros Hg. destruct n as [t a s cl ks|s]; [|done]. simpl.
  case_match; [by rewrite Hg|done].
Qed.

Lemma class_of_remove r n : class_of (remove r n) = class_of n.
Proof. by destruct n. Qed.

Lemma class_of_append_kids new n : class_of (append_kids new n) = class_of n.
Proof. by destruct n. Qed.




(** A tree without footers is left as it is. *)
Lemma remove_nothing r n : select r n = [] → remove r n = n.
Proof.
  revert r. induction n as [t a s cl ks IH|s] using node_ind'; intros r; [|done].
  simpl. intros [Hhit Hks]%app_eq_nil. f_equal.
  set (r' := step r (Elem t a s cl ks)) in *. clearbody r'. clear Hhit.
  induction IH as [|k ks Hk _ IHks]; [done|]. simpl in *.
  apply app_eq_nil in Hks as [Hk' Hks].
  destruct k as [t' a' s' cl' ks'|s'].
  - simpl in Hk'. destruct (hits r' (Elem t' a' s' cl' ks')) eqn:Hh; [done|].
    rewrite (Hk r') by (simpl; by rewrite Hh). simpl. by rewrite IHks.
  - simpl. destruct (hits r' (Text s')) eqn:Hh.
    + unfold hits in Hh. by destruct r' as [|? [|? ?]].
    + simpl. by rewrite IHks.
Qed.

Lemma remove_in_nothing r ks : select_in r ks = [] → remove_in r ks = ks.
Proof.
  unfold select_in, remove_in. induction ks as [|k ks IH]; [done|]. simpl.
  intros [Hk Hks]%app_eq_nil. rewrite (IH Hks).
  destruct (hits r k) eqn:Hh.
  - destruct k as [t a s cl ks'|s]; simpl in Hk; [by rewrite Hh in Hk|].
    unfold hits in Hh. by destruct r as [|? [|? ?]].
  - by rewrite (remove_nothing r k Hk).
Qed.

Lemma select_removed r n : select r (remove r n) = [] ∨ hits r n = true.
Proof.
  revert r. induction n as [t a s cl ks IH|s] using node_ind'; intros r; [|by left].
  destruct (hits r (Elem t a s cl ks)) eqn:Hh; [by right|]. left.
  simpl. rewrite (hits_same r _ (Elem t a s cl ks)) by done. rewrite Hh. simpl.
  rewrite (step_same r _ (Elem t a s cl ks)) by done.
  set (r' := step r (Elem t a s cl ks)). clearbody r'. clear Hh.
  induction IH as [|k ks Hk _ IHks]; [done|]. simpl.
  rewrite flat_map_app, IHks, app_nil_r.
  destruct (hits r' k) eqn:Hk'; simpl; [done|]. rewrite app_nil_r.
  destruct (Hk r') as [->|Hcon]; [done|congruence].
Qed.

Lemma select_in_removed r ks : select_in r (remove_in r ks) = [].
Proof.
  unfold select_in, remove_in. induction ks as [|k ks IH]; [done|]. simpl.
  rewrite flat_map_app, IH, app_nil_r.
  destruct (hits r k) eqn:Hk; simpl; [done|]. rewrite app_nil_r.
  destruct (select_removed r k) as [->|Hcon]; [done|congruence].
Qed.





End Footers.

(** ** Reading a larger store *)

Lemma obind_Ok {A B} (m : outcome A) (f : A → outcome B) b :
  obind m f = Ok b ↔ ∃ a, m = Ok a ∧ f a = Ok b.
Proof.
  destruct m as [a| |]; simpl; split; try done.
  - intros Hf. by exists a.
  - by intros (a' & [= <-] & Hf).
  - by intros (a' & ? & _).
  - by intros (a' & ? & _).
Qed.

Section Larger.

Context (H : host) (h h' : heap) (Hh : h `prefix_of` h').






Lemma extend_fields_larger srcs m :
  extend_fields h srcs = Ok m → extend_fields h' srcs = Ok m.
Proof.
  unfold extend_fields. generalize (Ok (∅ : gmap string value)).
  induction srcs as [|src srcs IH]; intros acc; simpl; [done|].
  intros Hm. destruct acc as [target| |]; simpl in *.
  - destruct (enumerable h src) as [ms| |] eqn:Hs; simpl in *.
    + rewrite (enumerable_mono h h' src ms Hh Hs). simpl. by apply IH.
    + exfalso. clear -Hm. induction srcs; simpl in *; [done|auto].
    + exfalso. clear -Hm. induction srcs; simpl in *; [done|auto].
  - exfalso. clear -Hm. induction srcs; simpl in *; [done|auto].
  - exfalso. clear -Hm. induction srcs; simpl in *; [done|auto].
Qed.





End Larger.

(** ** [updateButtons] twice *)

Section Idempotent.

Context (H : host) (options : value).

Lemma updateButtons_run buttons st :
  updateButtons H options buttons st =
    match extend_fields (store st) [drupalSettings_dialog st; options] with
    | Ok m =>
        let st' := with_store (store st ++ [CObj m]) st in
        match make_footer H (store st ++ [CObj m]) m buttons with
        | Ok footer => (Ok tt, with_kids (replaced footer (el_kids st)) st')
        | Throw e => (Throw e, st')
        | Unmodelled => (Unmodelled, st')
        end
    | Throw e => (Throw e, st)
    | Unmodelled => (Unmodelled, st)
    end.
Proof.
  unfold updateButtons, bind, gets. rewrite extend_run.
  destruct (extend_fields _ _) as [m| |]; [|done|done]. simpl.
  unfold read. simpl. rewrite list_lookup_middle by done. simpl.
  unfold lift. destruct (make_footer _ _ _ _) as [footer| |]; [|done|done].
  unfold replaced, when, modify, ret. simpl.
  destruct (0 <? _); destruct (negb _); reflexivity.
Qed.

Lemma replaced_cleaned footer ks :
  replaced footer ks =
    if negb (bool_decide (kids_of footer = []))
    then update_in (append_kids [footer]) content_sel (remove_in footer_sel ks)
    else remove_in footer_sel ks.
Proof.
  unfold replaced.
  destruct (select_in footer_sel ks) as [|x xs] eqn:Hsel; [|done].
  simpl. by rewrite (remove_in_nothing _ _ Hsel).
Qed.



Lemma make_footer_class s h buttons footer :
  make_footer H h s buttons = Ok footer → class_of footer = Some "modal-footer".
Proof.
  unfold make_footer. intros (xs & _ & Hr)%obind_Ok.
  apply obind_Ok in Hr as (bs & _ & [= <-]). simpl. apply lookup_singleton_eq.
Qed.

End Idempotent.

(** On the skeleton with an old footer, two calls for OK and Cancel leave
    exactly one footer, holding the two buttons. *)
Example one_footer_after_two_calls :
  select_in footer_sel
    (el_kids (updateButtons plain_host VUndef (VRef 3%nat)
                (updateButtons plain_host VUndef (VRef 3%nat)
                   (page ok_cancel footed_skeleton)).2).2)
  = [Elem "div" {[ "class" := "modal-footer" ]} ∅ []
       [Elem "button" {[ "type" := "button" ]} ∅ [VRef 1%nat] [Text "OK"];
        Elem "button" (<[ "class" := "btn-secondary" ]> {[ "type" := "button" ]}) ∅
          [VRef 2%nat] [Text "Cancel"]]].
Proof. vm_compute. reflexivity. Qed.

(** ** Operations that return *)












(** ** Buttons of the documented types are built *)

Section Typed.

Context (H : host) (options : value).






End Typed.

(** ** Completion of the operations *)

Section Complete.

Context (H : host) (options : value).





Lemma field_with_modal (b : bool) (m : gmap string value) k :
  k ≠ "modal" → field (copied {[ "modal" := VBool b ]} ∪ m) k = field m k.
Proof.
  intros Hk. apply field_union_r, copied_lookup_None.
  by apply lookup_singleton_ne.
Qed.






End Complete.


Example showModal_with_auto_buttons :
  (showModal plain_host (VRef 3%nat) (page hi_ok skeleton)).1 = Ok tt
  ∧ select_in footer_sel
      (el_kids (showModal plain_host (VRef 3%nat) (page hi_ok skeleton)).2)
    = [Elem "div" {[ "class" := "modal-footer" ]} ∅ []
         [Elem "button" {[ "type" := "button" ]} ∅ [VRef 1%nat] [Text "OK"]]].
Proof. vm_compute. by split. Qed.

(** * Further properties of the component *)

(** ** Stepping with a known result *)

Lemma wp_run_bind {A B} (m : M A) (k : A → M B) a st' Q st :
  m st = (Ok a, st') → wp (k a) Q st' → wp (bind m k) Q st.
Proof. unfold wp, bind. by intros ->. Qed.

Ltac holds_step :=
  first [ apply holds_dispatchDialogEvent | apply holds_emit
        | apply holds_add_header | apply holds_make_static
        | apply holds_make_non_modal | apply holds_auto_buttons
        | unfold set_attr; repeat first [apply holds_emit | pres_leaf | pres_struct] ].

Ltac keeps_step :=
  first [ by apply keeps_dispatchDialogEvent | by apply keeps_add_header
        | by apply keeps_make_static | by apply keeps_make_non_modal
        | by apply keeps_auto_buttons | by apply keeps_set_attr
        | by apply keeps_emit
        | repeat first [by apply keeps_emit | keeps_leaf | keeps_struct] ].

(** ** The calls of [openDialog] *)

Section Calls.

Context (H : host) (options : value).

Lemma dispatch_run ty s st :
  truthy s = true →
  dispatchDialogEvent H ty s st =
    (Ok tt,
     with_trace
       (trace st ++ [(if has_DrupalDialogEvent H then Dispatch ty s
                      else Trigger ("dialog:" +:+ ty) s) (snap st)]) st).
Proof.
  intros Hs. unfold dispatchDialogEvent.
  destruct (has_DrupalDialogEvent H); simpl; [|done].
  by rewrite Hs.
Qed.

(** The merge does not throw: it reads plain data. *)
Lemma extend_fields_no_throw h sources e : extend_fields h sources ≠ Throw e.
Proof.
  unfold extend_fields.
  assert (Hgen : ∀ acc : outcome (gmap string value),
    acc ≠ Throw e →
    foldl (λ acc src, target <~ acc ;; m <~ enumerable h src ;; Ok (copied m ∪ target))
      acc sources ≠ Throw e).
  { induction sources as [|src sources IH]; intros acc Hacc; [done|].
    simpl. apply IH. destruct acc as [t| |]; [|done|done]. simpl.
    destruct src as [| | | | |l|]; simpl; try done.
    destruct (h !! l) as [[]|]; done. }
  by apply Hgen.
Qed.

(** What [openDialog] has called when it ends, by outcome. *)
Lemma open_calls arg st :
  wp (openDialog H options arg)
     (λ o st',
        match o with
        | Ok _ =>
            marks st' = (marks st ++ calls_of_open H (List.length (store st)))%list
        | Throw _ =>
            marks st' = (marks st ++ calls_before H (List.length (store st)))%list
        | Unmodelled =>
            marks st' = marks st
            ∨ marks st' = (marks st ++ calls_before H (List.length (store st)))%list
        end) st.
Proof.
  set (l := List.length (store st)).
  set (Q := λ (o : outcome unit) st',
    match o with Ok _ => _ | Throw _ => _ | Unmodelled => _ end).
  unfold openDialog. apply wp_gets_bind.
  apply wp_extend_bind; [|by intros e He%extend_fields_no_throw|by left].
  intros m Hm.
  set (st1 := with_store (store st ++ [CObj m]) st).
  apply (wp_read_bind _ m); [by apply list_lookup_middle|].
  eapply wp_run_bind; [by apply dispatch_run|].
  eapply wp_run_bind; [reflexivity|].
  set (st2 := with_trace _ _).
  set (I := λ st',
    holds (store st1) st'
    ∧ (λ t, mark_of <$> t = (marks st ++ calls_before H l)%list) (trace st')).
  assert (HI : I st2).
  { split; [by unfold holds|]. unfold st2, marks, calls_before, announced. simpl.
    rewrite !fmap_app, <-app_assoc. simpl. by destruct (has_DrupalDialogEvent H). }
  assert (Hfail : ∀ o st', o ≠ Ok tt → I st' → Q o st').
  { intros o st' Ho [_ Ht]. destruct o as [[]| |]; [done|done|by right]. }
  assert (Hl : ∀ st', I st' → store st' !! l = Some (CObj m)).
  { intros st' [Hh _]. eapply holds_lookup; [exact Hh|].
    by apply list_lookup_middle. }
  clearbody st2.
  do 8 (eapply (wp_inv_bind I);
    [ exact HI
    | apply pres_and;
      [ holds_step
      | apply (keeps_pres trace (λ t, mark_of <$> t = _)); keeps_step ]
    | clear dependent st2; intros ? st2 HI
    | intros ? ? HI'; eapply Hfail; [done|exact HI']
    | intros ? HI'; eapply Hfail; [done|exact HI'] ]).
  pose proof (Hl _ HI) as Hl2. destruct HI as [_ Ht].
  assert (Hmod : ∃ st3,
    when (has_modal H) (emit (Modal (VRef l)) ;; emit (Modal (VStr "show"))) st2
    = (Ok tt, st3)
    ∧ store st3 = store st2
    ∧ marks st3 =
        (marks st2 ++ if has_modal H
                      then [ModalCalled (VRef l); ModalCalled (VStr "show")]
                      else [])%list).
  { destruct (has_modal H); eexists; (split; [reflexivity|]); split; try done.
    - unfold marks. simpl. by rewrite !fmap_app, <-app_assoc.
    - by rewrite app_nil_r. }
  destruct Hmod as (st3 & Hrun & Hst & Hm3).
  eapply wp_run_bind; [exact Hrun|]. rewrite <-Hst in Hl2.
  apply (wp_read_bind _ m); [done|].
  apply (wp_write_bind _ m); [done|].
  eapply wp_run_bind; [by apply dispatch_run|].
  eapply wp_write.
  { simpl. apply list_lookup_insert_eq. apply lookup_lt_is_Some. by eexists. }
  unfold Q, calls_of_open. unfold marks in *. simpl. rewrite fmap_app, Hm3, Ht.
  rewrite <-!app_assoc. unfold calls_before, announced. simpl.
  by destruct (has_DrupalDialogEvent H).
Qed.

(** X1.  An [openDialog] that returns has made, in this order and on the one
    settings object it created: the [beforecreate] notification of
    [dispatchDialogEvent], the jQuery [dialog:beforecreate] trigger, the two
    calls of the modal plugin (its initialisation with the settings, then
    [show]) when the plugin exists, and the [aftercreate] notification;
    nothing else is called. *)
Theorem open_announces_in_order (arg : value) (st : state) :
  (openDialog H options arg st).1 = Ok tt →
  marks (openDialog H options arg st).2
  = (marks st ++ calls_of_open H (List.length (store st)))%list.
Proof.
  intros Hok. pose proof (open_calls arg st) as Hc. unfold wp in Hc.
  by rewrite Hok in Hc.
Qed.

(** X2.  An [openDialog] that throws has called neither the modal plugin nor
    any [aftercreate] listener: it has made the two [beforecreate]
    notifications and nothing else. *)
Theorem throwing_open_shows_nothing (arg : value) (st : state) (e : error) :
  (openDialog H options arg st).1 = Throw e →
  marks (openDialog H options arg st).2
  = (marks st ++ calls_before H (List.length (store st)))%list.
Proof.
  intros Hthrow. pose proof (open_calls arg st) as Hc. unfold wp in Hc.
  by rewrite Hthrow in Hc.
Qed.

End Calls.

(** [showModal()]'s [openDialog] on the skeleton, with the modal plugin and
    without [DrupalDialogEvent]: five calls, all on the object created for
    the merged settings. *)
Lemma open_announces_in_order_witness :
  marks (openDialog plain_host VUndef (VRef 1%nat)
           (page [CObj {[ "modal" := VBool true ]}] skeleton)).2
  = [Triggered "dialog:beforecreate" (VRef 2%nat);
     Triggered "dialog:beforecreate" (VRef 2%nat);
     ModalCalled (VRef 2%nat);
     ModalCalled (VStr "show");
     Triggered "dialog:aftercreate" (VRef 2%nat)].
Proof.
  apply (open_announces_in_order plain_host VUndef (VRef 1%nat)
           (page [CObj {[ "modal" := VBool true ]}] skeleton)).
  vm_compute. reflexivity.
Defined.

(** [drupalAutoButtons] without buttons: the two [beforecreate] notifications
    and nothing else. *)
Lemma throwing_open_shows_nothing_witness :
  marks (openDialog plain_host (VRef 1%nat) VUndef auto_without_buttons).2
  = [Triggered "dialog:beforecreate" (VRef 2%nat);
     Triggered "dialog:beforecreate" (VRef 2%nat)].
Proof.
  apply (throwing_open_shows_nothing plain_host (VRef 1%nat) VUndef
           auto_without_buttons
           (TypeError "Cannot read properties of undefined (reading 'length')")).
  vm_compute. reflexivity.
Defined.

(** ** The settings the listeners receive *)

Lemma field_merged (mo md : gmap string value) k :
  k ≠ "__proto__" →
  field (copied mo ∪ (copied md ∪ ∅)) k
  = if decide (field mo k = VUndef) then field md k else field mo k.
Proof.
  intros Hk. rewrite (right_id_L ∅ (∪)).
  destruct (decide (field mo k = VUndef)) as [Hu|Hne].
  - rewrite field_union_r; [by apply field_copied|].
    apply map_lookup_filter_None. right. intros v Hv [_ Hne]. simpl in *.
    unfold field in Hu. rewrite Hv in Hu. simpl in Hu. congruence.
  - destruct (mo !! k) as [v|] eqn:Hv.
    + unfold field at 2. rewrite Hv. simpl.
      apply field_union_l. apply map_lookup_filter_Some. split; [done|]. simpl.
      split; [done|]. intros ->. apply Hne. unfold field. by rewrite Hv.
    + exfalso. apply Hne. unfold field. by rewrite Hv.
Qed.

Lemma grows_keeps {A} (t0 : list event) (m : M A) :
  keeps trace m → pres (λ st, t0 `prefix_of` trace st) m.
Proof. apply (keeps_pres trace (λ t, t0 `prefix_of` t)). Qed.

Lemma grows_emit (t0 : list event) e :
  pres (λ st, t0 `prefix_of` trace st) (emit e).
Proof. intros st Hp. simpl. by apply prefix_app_r. Qed.

Section Views.

Context (H : host) (options : value).

Lemma grows_dispatchDialogEvent t0 ty s :
  pres (λ st, t0 `prefix_of` trace st) (dispatchDialogEvent H ty s).
Proof.
  unfold dispatchDialogEvent. apply pres_if; [apply grows_emit|].
  apply pres_bind; [|intros ?; apply grows_emit].
  apply grows_keeps. apply keeps_if; [apply keeps_ret|].
  apply keeps_bind; [by apply keeps_alloc|intros ?; apply keeps_ret].
Qed.

Ltac grows_step :=
  first [ apply grows_dispatchDialogEvent | apply grows_emit
        | solve [ apply grows_keeps; by apply keeps_write ]
        | solve [ apply grows_keeps; keeps_step ] ].

(** X3.  Whatever the factory options say, the first call [show()] or
    [showModal()] makes is the [beforecreate] notification, and the settings
    object it carries has [modal] as the method fixes it and, under every
    other name, the value of the factory options unless that is missing or
    [undefined], in which case the default of [drupalSettings.dialog]. *)
Theorem listeners_get_merged_settings (b : bool) (st : state)
    (md mo : gmap string value) :
  enumerable (store st) (drupalSettings_dialog st) = Ok md →
  enumerable (store st) options = Ok mo →
  ∃ e rest m,
    trace ((if b then showModal H options else show H options) st).2
    = (trace st ++ e :: rest)%list
    ∧ mark_of e = announced H "beforecreate" (VRef (S (List.length (store st))))
    ∧ seen_store (view e) !! S (List.length (store st)) = Some (CObj m)
    ∧ field m "modal" = VBool b
    ∧ ∀ k, k ≠ "modal" → k ≠ "__proto__" →
        field m k = if decide (field mo k = VUndef) then field md k else field mo k.
Proof.
  intros Hd Ho.
  set (arg := CObj {[ "modal" := VBool b ]}).
  set (l := S (List.length (store st))).
  set (m := copied {[ "modal" := VBool b ]} ∪ (copied mo ∪ (copied md ∪ ∅))).
  set (e := (if has_DrupalDialogEvent H then Dispatch "beforecreate" (VRef l)
             else Trigger ("dialog:" +:+ "beforecreate") (VRef l))
              (Snapshot (dialog_open st) (dialog_returnValue st)
                 ((store st ++ [arg]) ++ [CObj m]))).
  assert (Hrun : wp (l0 <- alloc arg ;; openDialog H options (VRef l0))
                    (λ _ st', (trace st ++ [e])%list `prefix_of` trace st') st).
  { apply wp_alloc_bind. unfold openDialog. apply wp_gets_bind.
    assert (Hp : store st `prefix_of` (store st ++ [arg])%list) by (by apply prefix_app_r).
    assert (Hm : extend_fields (store st ++ [arg])
                   [drupalSettings_dialog st; options; VRef (List.length (store st))]
                 = Ok m).
    { apply extend_fields_three. exists md, mo, {[ "modal" := VBool b ]}.
      split_and!; try done; try by eapply enumerable_mono.
      simpl. by rewrite list_lookup_middle. }
    clearbody m arg.
    apply wp_extend_bind; simpl; rewrite Hm; [|done|done].
    intros ? [= <-].
    apply (wp_read_bind _ m); [by apply list_lookup_middle|].
    eapply wp_run_bind; [by apply dispatch_run|].
    set (st1 := with_trace _ _).
    apply (wp_inv (λ st', (trace st ++ [e])%list `prefix_of` trace st')).
    - unfold st1, e. simpl. rewrite length_app. simpl.
      replace (List.length (store st) + 1)%nat with l by (unfold l; lia).
      done.
    - clearbody st1.
      repeat first [ grows_step | pres_struct | pres_leaf ].
    - done. }
  exists e.
  assert (Hshape : ((if b then showModal H options else show H options) st).2
                   = ((l0 <- alloc arg ;; openDialog H options (VRef l0)) st).2).
  { unfold arg. by destruct b. }
  rewrite Hshape. unfold wp in Hrun.
  destruct Hrun as [rest Hrest]. exists rest, m.
  split_and!.
  - by rewrite Hrest, <-app_assoc.
  - unfold e, announced. by destruct (has_DrupalDialogEvent H).
  - unfold e. destruct (has_DrupalDialogEvent H); simpl;
      apply list_lookup_middle; rewrite length_app; simpl; unfold l; lia.
  - apply field_union_l, copied_singleton_lookup; done.
  - intros k Hk Hp. unfold m. rewrite field_with_modal by done.
    by apply field_merged.
Qed.

End Views.

(** Options that ask for [modal: true] and give [dialogClasses: undefined]:
    [show()] still announces [modal: false], and [dialogClasses] is the
    default. *)
Lemma listeners_get_merged_settings_witness :
  ∃ e rest m,
    trace (show plain_host (VRef 1%nat) (page modal_options skeleton)).2
    = (trace (page modal_options skeleton) ++ e :: rest)%list
    ∧ mark_of e = Triggered "dialog:beforecreate" (VRef 3%nat)
    ∧ seen_store (view e) !! 3%nat = Some (CObj m)
    ∧ field m "modal" = VBool false
    ∧ field m "dialogClasses" = VStr "".
Proof.
  destruct (listeners_get_merged_settings plain_host (VRef 1%nat) false
              (page modal_options skeleton) default_options
              (<[ "modal" := VBool true ]> {[ "dialogClasses" := VUndef ]})
              eq_refl eq_refl)
    as (e & rest & m & Htrace & Hmark & Hseen & Hmodal & Hother).
  assert (Hl : S (List.length (store (page modal_options skeleton))) = 3%nat)
    by (vm_compute; reflexivity).
  rewrite Hl in Hmark, Hseen.
  exists e, rest, m.
  split; [exact Htrace|]. split; [exact Hmark|]. split; [exact Hseen|].
  split; [exact Hmodal|].
  rewrite Hother; [|discriminate|discriminate]. vm_compute. reflexivity.
Defined.

(** ** The return value *)

Section ReturnValue.

Context (H : host) (options : value).

Lemma perform_unset_or_empty c : pres unset_or_empty (perform H options c).
Proof.
  intros st HI.
  assert (Hkeep : ∀ m : M unit,
    keeps dialog_returnValue m → pres (holds (store st)) m →
    unset_or_empty (m st).2).
  { intros m Hk Hh. specialize (Hh st (holds_refl st)).
    destruct HI as [Hu|(l & Hr & Hl)].
    - left. by rewrite Hk.
    - right. exists l. rewrite Hk. split; [done|].
      by eapply holds_lookup. }
  destruct c; simpl.
  - apply Hkeep.
    + apply keeps_bind; [by apply keeps_alloc|intros ?]. by apply keeps_openDialog.
    + apply pres_bind; [apply holds_alloc_pres|intros ?]. apply holds_openDialog.
  - apply Hkeep.
    + apply keeps_bind; [by apply keeps_alloc|intros ?]. by apply keeps_openDialog.
    + apply pres_bind; [apply holds_alloc_pres|intros ?]. apply holds_openDialog.
  - right. exists (List.length (store st)).
    unfold close, bind, alloc. rewrite closeDialog_result. simpl.
    split; [done|]. destruct (has_modal H); simpl; by apply list_lookup_middle.
  - apply Hkeep; [by apply keeps_updateButtons|apply holds_updateButtons].
  - apply Hkeep; [by apply keeps_dispatchDialogEvent|apply holds_dispatchDialogEvent].
  - apply Hkeep; [by apply keeps_dispatchDialogEvent|apply holds_dispatchDialogEvent].
Qed.

(** X4.  Through the handle, [returnValue] never carries anything: from the
    creation of the dialog on and after any sequence of calls of its methods
    and of its hide listeners, it is [undefined] or an object that has no
    property. *)
Theorem returnValue_carries_nothing (cs : list call) (st : state) :
  unset_or_empty (run H options cs (create st).2).
Proof.
  assert (H0 : unset_or_empty (create st).2) by (by left).
  revert H0. generalize (create st).2. clear st.
  induction cs as [|c cs IH]; intros st HI; [done|].
  simpl. apply IH. by apply perform_unset_or_empty.
Qed.

End ReturnValue.

(** ** The argument of [updateButtons] *)

Lemma omap_list_Forall2 {A B} (f : A → outcome B) (xs : list A) (ys : list B) :
  omap_list f xs = Ok ys → Forall2 (λ x y, f x = Ok y) xs ys.
Proof.
  revert ys. induction xs as [|x xs IH]; intros ys; simpl.
  - intros [= <-]. constructor.
  - intros (y & Hy & Hr)%obind_Ok. apply obind_Ok in Hr as (ys' & Hys & [= <-]).
    constructor; [done|by apply IH].
Qed.

Section Buttons.

Context (H : host) (options : value).

Lemma make_footer_nothing h s v :
  no_buttons h v →
  make_footer H h s v = Ok (Elem "div" {[ "class" := "modal-footer" ]} ∅ [] []).
Proof.
  unfold make_footer. intros [[Hp Ht]|(l & -> & Hl)].
  - destruct v; try done; simpl in *; by rewrite Ht.
  - simpl. by rewrite Hl.
Qed.

Lemma no_buttons_larger h h' v :
  h `prefix_of` h' → no_buttons h v → no_buttons h' v.
Proof.
  intros Hp [?|(l & -> & Hl)]; [by left|right].
  exists l. split; [done|]. by eapply prefix_lookup_Some.
Qed.

(** X5.  [updateButtons] on something that is not a list of buttons.  A
    truthy primitive (a non-empty string, a number other than zero, [true])
    makes it throw a [TypeError] before it looks at the element, whose footer
    stays.  A falsy primitive ([undefined], [null], [false], [0], the empty
    string) and an array without items make it return after it has removed
    every footer and appended none. *)
Theorem updateButtons_without_buttons (v : value) (st : state)
    (m : gmap string value) :
  extend_fields (store st) [drupalSettings_dialog st; options] = Ok m →
  (primitive v = true → truthy v = true →
   (∃ msg, (updateButtons H options v st).1 = Throw (TypeError msg))
   ∧ el_kids (updateButtons H options v st).2 = el_kids st)
  ∧ (no_buttons (store st) v →
     (updateButtons H options v st).1 = Ok tt
     ∧ el_kids (updateButtons H options v st).2 = remove_in footer_sel (el_kids st)
     ∧ select_in footer_sel (el_kids (updateButtons H options v st).2) = []).
Proof.
  intros Hm. rewrite updateButtons_run, Hm. cbn zeta. split.
  - intros Hp Ht. unfold make_footer.
    destruct v; try done; simpl in *; rewrite Ht; simpl; by eauto.
  - intros Hno.
    rewrite (make_footer_nothing _ m v).
    2:{ eapply no_buttons_larger; [|exact Hno]. by apply prefix_app_r. }
    simpl. rewrite replaced_cleaned. simpl.
    split_and!; try done. apply select_in_removed.
Qed.

(** ** The buttons of the footer *)

Lemma fallback_shape classes t a s c ks b :
  fallback classes (Elem t a s c ks) = Ok b →
  ∃ a', b = Elem t a' s c ks ∧ ∀ k, k ≠ "class" → a' !! k = a !! k.
Proof.
  unfold fallback. destruct (wants_fallback _).
  - intros (names & _ & [= <-])%obind_Ok. simpl. eexists. split; [done|].
    intros k Hk. by apply lookup_partial_alter_ne.
  - intros [= <-]. by eexists.
Qed.

Lemma make_button_built h s x b : make_button H h s x = Ok b → built H h x b.
Proof.
  unfold make_button. intros (b0 & Hb0 & Hfb)%obind_Ok.
  unfold assemble in Hb0.
  apply obind_Ok in Hb0 as (attributes & Hattrs & Hb0).
  apply obind_Ok in Hb0 as (a1 & Ha1 & Hb0).
  apply obind_Ok in Hb0 as (cls & Hcls & Hb0).
  apply obind_Ok in Hb0 as (names & Hnames & Hb0).
  apply obind_Ok in Hb0 as (text & Htext & Hb0).
  apply obind_Ok in Hb0 as (ks & Hks & [= <-]).
  apply fallback_shape in Hfb as (a' & -> & Ha').
  exists a', text, ks. split_and!; try done.
  intros Hu. rewrite Hu in Hattrs. injection Hattrs as <-. simpl in Ha1.
  injection Ha1 as <-.
  split.
  - rewrite Ha' by done. by rewrite lookup_partial_alter_ne.
  - intros k Hk Hc. rewrite Ha' by done. rewrite lookup_partial_alter_ne by done.
    by apply lookup_singleton_ne.
Qed.

(** X6.  When [updateButtons] returns for an array, the footer it has put in
    place of the old ones holds one button per item of the array, in the
    order of the array, each with the click handler of its own item and the
    markup of that item's [text]. *)
Theorem footer_follows_buttons (l : loc) (xs : list value) (st : state) :
  store st !! l = Some (CArr xs) →
  (updateButtons H options (VRef l) st).1 = Ok tt →
  ∃ footer : node,
    el_kids (updateButtons H options (VRef l) st).2 = replaced footer (el_kids st)
    ∧ class_of footer = Some "modal-footer"
    ∧ Forall2 (built H (store (updateButtons H options (VRef l) st).2))
        xs (kids_of footer).
Proof.
  intros Hl. rewrite updateButtons_run.
  destruct (extend_fields (store st) _) as [m| |]; [|done|done]. cbn zeta.
  destruct (make_footer H _ m (VRef l)) as [footer| |] eqn:Hf; [|done|done].
  intros _. exists footer. simpl.
  split; [done|]. split; [by eapply make_footer_class|].
  unfold make_footer in Hf. simpl in Hf.
  rewrite (lookup_app_l_Some _ _ _ _ Hl) in Hf. simpl in Hf.
  apply obind_Ok in Hf as (bs & Hbs & [= <-]). simpl.
  apply omap_list_Forall2 in Hbs.
  eapply Forall2_impl; [exact Hbs|].
  intros x b. apply make_button_built.
Qed.

End Buttons.

(** On a skeleton with a footer: a string leaves the footer and throws,
    [undefined] removes it. *)
Lemma updateButtons_without_buttons_witness :
  ((∃ msg, (updateButtons plain_host VUndef (VStr "OK") (page [] footed_skeleton)).1
           = Throw (TypeError msg))
   ∧ el_kids (updateButtons plain_host VUndef (VStr "OK") (page [] footed_skeleton)).2
     = footed_skeleton)
  ∧ ((updateButtons plain_host VUndef VUndef (page [] footed_skeleton)).1 = Ok tt
     ∧ el_kids (updateButtons plain_host VUndef VUndef (page [] footed_skeleton)).2
       = skeleton).
Proof.
  split.
  - pose proof (updateButtons_without_buttons plain_host VUndef (VStr "OK")
                  (page [] footed_skeleton)
                  (copied ∅ ∪ (copied default_options ∪ ∅)) eq_refl) as [Hw _].
    by apply Hw.
  - pose proof (updateButtons_without_buttons plain_host VUndef VUndef
                  (page [] footed_skeleton)
                  (copied ∅ ∪ (copied default_options ∪ ∅)) eq_refl) as [_ Hw].
    destruct Hw as (Hok & Hkids & _); [by left|].
    split; [done|]. rewrite Hkids. vm_compute. reflexivity.
Defined.

(** The footer for OK and Cancel. *)
Lemma footer_follows_buttons_witness :
  ∃ footer : node,
    el_kids (updateButtons plain_host VUndef (VRef 3%nat)
               (page ok_cancel footed_skeleton)).2
    = replaced footer footed_skeleton
    ∧ class_of footer = Some "modal-footer"
    ∧ Forall2 (built plain_host
                 (store (updateButtons plain_host VUndef (VRef 3%nat)
                           (page ok_cancel footed_skeleton)).2))
        [VRef 1%nat; VRef 2%nat] (kids_of footer).
Proof.
  apply (footer_follows_buttons plain_host VUndef 3%nat [VRef 1%nat; VRef 2%nat]
           (page ok_cancel footed_skeleton)).
  - reflexivity.
  - vm_compute. reflexivity.
Defined.

(** ** The [data-settings] attribute *)

Lemma keeps_attr_set_attr k0 k v :
  k ≠ k0 → keeps (λ st, el_attrs st !! k0) (set_attr k v).
Proof. intros Hk st. simpl. by apply lookup_insert_ne. Qed.

Lemma keeps_attr_make_static k0 s :
  k0 ≠ "data-bs-backdrop" → k0 ≠ "data-bs-keyboard" →
  keeps (λ st, el_attrs st !! k0) (make_static s).
Proof.
  intros H1 H2. unfold make_static. apply keeps_when.
  apply keeps_bind; [|intros ?]; by apply keeps_attr_set_attr.
Qed.

Lemma keeps_attr_make_non_modal k0 s :
  k0 ≠ "data-bs-backdrop" → k0 ≠ "data-bs-keyboard" →
  keeps (λ st, el_attrs st !! k0) (make_non_modal s).
Proof.
  intros H1 H2. unfold make_non_modal. apply keeps_when.
  apply keeps_bind; [by apply keeps_attr_set_attr|intros ?].
  apply keeps_bind; [by apply keeps_attr_set_attr|intros ?].
  apply keeps_bind; [|intros ?]; by apply keeps_modify.
Qed.

Section DataSettings.

Context (H : host) (options : value).

(** Lines 141-146 with a [dialogClasses] that is absent or a string. *)
Lemma reset_run (m : gmap string value) st :
  text_like (field m "dialogClasses") →
  when (negb (strict_eq (field m "dialogClasses") VUndef))
    (h <- gets store ;;
     names <- lift (classesToArray h (field m "dialogClasses")) ;;
     modify (λ st, with_kids
       (update_in
          (map_class (λ _, Classes.addClass names
                             (Classes.addClass ["modal-dialog"] None)))
          dialog_sel (el_kids st)) st)) st
  = (Ok tt, with_kids (after_reset (field m "dialogClasses") (el_kids st)) st).
Proof.
  intros [->|[s ->]]; simpl; by destruct st.
Qed.

(** X7.  When [JSON.stringify] throws on the merged settings, [openDialog]
    throws: the [.modal-dialog] classes are already set anew, but no attribute
    and no style of the element is written. *)
Theorem open_throws_when_settings_do_not_serialise (arg : value) (st : state)
    (m : gmap string value) :
  extend_fields (store st) [drupalSettings_dialog st; options; arg] = Ok m →
  text_like (field m "dialogClasses") →
  JSON_stringify H (store st ++ [CObj m]) (VRef (List.length (store st))) = None →
  (∃ msg, (openDialog H options arg st).1 = Throw (TypeError msg))
  ∧ el_attrs (openDialog H options arg st).2 = el_attrs st
  ∧ el_style (openDialog H options arg st).2 = el_style st
  ∧ el_kids (openDialog H options arg st).2
    = after_reset (field m "dialogClasses") (el_kids st).
Proof.
  intros Hm Hdc Hjson.
  change (wp (openDialog H options arg)
            (λ o st', (∃ msg, o = Throw (TypeError msg))
                      ∧ el_attrs st' = el_attrs st
                      ∧ el_style st' = el_style st
                      ∧ el_kids st' = after_reset (field m "dialogClasses") (el_kids st))
            st).
  unfold openDialog. apply wp_gets_bind.
  apply wp_extend_bind; rewrite Hm; [|done|done].
  intros ? [= <-].
  apply (wp_read_bind _ m); [by apply list_lookup_middle|].
  eapply wp_run_bind; [by apply dispatch_run|].
  eapply wp_run_bind; [reflexivity|].
  eapply wp_run_bind; [by apply reset_run|].
  apply wp_gets_bind. simpl. rewrite Hjson.
  apply wp_lift_bind. by eauto.
Qed.

(** X8.  When [openDialog] returns, the element's [data-settings] attribute
    is the serialisation of the merged settings as they were right after the
    merge: before [autoResize] is forced to [false], and whatever the later
    steps do. *)
Theorem data_settings_hold_merged_settings (arg : value) (st : state) :
  (openDialog H options arg st).1 = Ok tt →
  ∃ m json,
    extend_fields (store st) [drupalSettings_dialog st; options; arg] = Ok m
    ∧ JSON_stringify H (store st ++ [CObj m]) (VRef (List.length (store st)))
      = Some json
    ∧ el_attrs (openDialog H options arg st).2 !! "data-settings" = Some json.
Proof.
  change (wp (openDialog H options arg)
            (λ o st', o = Ok tt →
               ∃ m json,
                 extend_fields (store st) [drupalSettings_dialog st; options; arg] = Ok m
                 ∧ JSON_stringify H (store st ++ [CObj m])
                     (VRef (List.length (store st))) = Some json
                 ∧ el_attrs st' !! "data-settings" = Some json) st).
  unfold openDialog. apply wp_gets_bind.
  apply wp_extend_bind; [|done|done].
  intros m Hm.
  apply (wp_read_bind _ m); [by apply list_lookup_middle|].
  eapply wp_run_bind; [by apply dispatch_run|].
  eapply wp_run_bind; [reflexivity|].
  set (st2 := with_trace _ _).
  assert (HI : store st2 = (store st ++ [CObj m])%list) by done.
  clearbody st2.
  eapply (wp_inv_bind (λ st', store st' = (store st ++ [CObj m])%list));
    [ exact HI
    | apply (keeps_pres store (λ h, h = _)); repeat first [keeps_leaf | keeps_struct]
    | clear dependent st2; intros ? st2 HI
    | done | done ].
  apply wp_gets_bind. rewrite HI.
  destruct (JSON_stringify H _ _) as [json|] eqn:Hjson; apply wp_lift_bind; [|done].
  eapply wp_run_bind; [reflexivity|].
  apply (wp_inv (λ st', el_attrs st' !! "data-settings" = Some json)).
  - simpl. apply lookup_insert_eq.
  - apply (keeps_pres (λ st, el_attrs st !! "data-settings") (λ x, x = _)).
    apply keeps_bind; [by apply keeps_add_header|intros ?].
    apply keeps_bind; [by apply keeps_attr_make_static|intros ?].
    apply keeps_bind; [by apply keeps_attr_make_non_modal|intros ?].
    by apply keeps_tail.
  - intros o st' Hst' _. by exists m, json.
Qed.

End DataSettings.

(** On a host whose serialisation throws. *)
Lemma open_throws_when_settings_do_not_serialise_witness :
  (∃ msg, (openDialog cyclic_host VUndef VUndef (page [] faded_skeleton)).1
          = Throw (TypeError msg))
  ∧ el_attrs (openDialog cyclic_host VUndef VUndef (page [] faded_skeleton)).2 = ∅
  ∧ el_style (openDialog cyclic_host VUndef VUndef (page [] faded_skeleton)).2 = ∅.
Proof.
  destruct (open_throws_when_settings_do_not_serialise cyclic_host VUndef VUndef
              (page [] faded_skeleton)
              (copied ∅ ∪ (copied ∅ ∪ (copied default_options ∪ ∅))) eq_refl)
    as (Hthrow & Hattrs & Hstyle & _).
  - right. exists "". reflexivity.
  - reflexivity.
  - split; [exact Hthrow|]. split; [exact Hattrs|exact Hstyle].
Defined.

(** On [plain_host], which serialises every settings object to the same
    text. *)
Lemma data_settings_hold_merged_settings_witness :
  ∃ m json,
    extend_fields (store (page [] skeleton))
      [drupalSettings_dialog (page [] skeleton); VUndef; VUndef] = Ok m
    ∧ JSON_stringify plain_host (store (page [] skeleton) ++ [CObj m])
        (VRef (List.length (store (page [] skeleton)))) = Some json
    ∧ el_attrs (openDialog plain_host VUndef VUndef (page [] skeleton)).2
        !! "data-settings" = Some json.
Proof.
  apply (data_settings_hold_merged_settings plain_host VUndef VUndef (page [] skeleton)).
  vm_compute. reflexivity.
Defined.

(** ** The classes of [.modal-dialog] *)

Section DialogClasses.

Import Classes.

Lemma proper_modal_dialog : proper "modal-dialog".
Proof. by split. Qed.

Lemma add_tokens_proper cur names :
  Forall proper cur → Forall proper names → Forall proper (foldl add_token cur names).
Proof.
  intros Hc Hn. destruct (add_tokens_spec cur names) as (added & -> & _ & Hin).
  apply Forall_app. split; [done|].
  apply Forall_forall. intros t Ht. apply Hin in Ht as [Ht _].
  by eapply Forall_forall in Hn.
Qed.

Lemma reset_class_list s :
  tokens (default "" (addClass (tokens s) (addClass ["modal-dialog"] None)))
  = foldl add_token ["modal-dialog"] (tokens s).
Proof.
  change (addClass ["modal-dialog"] None) with (Some "modal-dialog").
  rewrite addClass_Some. simpl default.
  pose proof (tokens_single _ proper_modal_dialog) as Hmd.
  destruct (tokens s) as [|n ns] eqn:Hn; [done|].
  rewrite Hmd. apply tokens_join, add_tokens_proper.
  - constructor; [apply proper_modal_dialog|constructor].
  - rewrite <-Hn. apply tokens_proper.
Qed.

Lemma class_of_update_in g r ks :
  (∀ x, class_of (g x) = class_of x) →
  class_of <$> update_in g r ks = class_of <$> ks.
Proof.
  intros Hg. unfold update_in. rewrite <-list_fmap_compose.
  apply list_fmap_ext. intros _ n _. simpl. by apply class_of_update.
Qed.

Lemma class_of_remove_in_footers ks :
  class_of <$> remove_in footer_sel ks = class_of <$> ks.
Proof.
  unfold remove_in. induction ks as [|k ks IH]; [done|].
  cbn [flat_map]. change (hits footer_sel k) with false.
  rewrite fmap_app, IH. simpl. by rewrite class_of_remove.
Qed.

Lemma class_of_prepend_kids new n : class_of (prepend_kids new n) = class_of n.
Proof. by destruct n. Qed.

Lemma class_of_set_style k v n : class_of (set_style k v n) = class_of n.
Proof. by destruct n. Qed.

Lemma class_of_replaced footer ks :
  class_of <$> replaced footer ks = class_of <$> ks.
Proof.
  rewrite replaced_cleaned. destruct (negb _).
  - rewrite class_of_update_in by apply class_of_append_kids.
    apply class_of_remove_in_footers.
  - apply class_of_remove_in_footers.
Qed.

Lemma after_reset_classes s ks :
  Forall2 (classes_reset (foldl add_token ["modal-dialog"] (tokens s)))
    ks (after_reset (VStr s) ks).
Proof.
  unfold after_reset, update_in. apply Forall2_fmap_r, Forall_Forall2_diag.
  apply Forall_forall. intros n _.
  destruct n as [t a st c kids|txt]; [|done].
  unfold compose, classes_reset. cbn [update].
  change (hits dialog_sel (Elem t a st c kids))
    with (has_class "modal-dialog" (Elem t a st c kids)).
  destruct (has_class "modal-dialog" (Elem t a st c kids)) eqn:Hc; [|done].
  unfold class_list, reset_classes. cbn [map_class class_of].
  rewrite lookup_partial_alter_eq. apply reset_class_list.
Qed.

Context (H : host) (options : value).

Lemma child_classes_updateButtons buttons :
  keeps child_classes (updateButtons H options buttons).
Proof.
  intros st. rewrite updateButtons_run.
  destruct (extend_fields _ _) as [m| |]; [|done|done]. cbn zeta.
  destruct (make_footer _ _ _ _) as [footer| |]; [|done|done].
  unfold child_classes. simpl. apply class_of_replaced.
Qed.

Lemma child_classes_auto_buttons m :
  keeps child_classes (auto_buttons H options m).
Proof.
  unfold auto_buttons. apply keeps_when.
  apply keeps_bind; [apply keeps_gets|intros ?].
  apply keeps_bind; [apply keeps_lift|intros ?].
  apply keeps_bind; [apply keeps_lift|intros ?].
  apply keeps_when, child_classes_updateButtons.
Qed.

Lemma child_classes_add_header m : keeps child_classes (add_header H m).
Proof.
  unfold add_header. apply keeps_when.
  apply keeps_bind; [|intros ?].
  - apply keeps_if; [|apply keeps_ret].
    apply keeps_bind; [apply keeps_lift|intros ?].
    apply keeps_bind; [apply keeps_lift|intros ?]. apply keeps_ret.
  - apply keeps_modify. intros st. unfold child_classes. simpl.
    apply class_of_update_in, class_of_prepend_kids.
Qed.

Lemma child_classes_make_non_modal m : keeps child_classes (make_non_modal m).
Proof.
  unfold make_non_modal. apply keeps_when.
  apply keeps_bind; [by apply keeps_set_attr|intros ?].
  apply keeps_bind; [by apply keeps_set_attr|intros ?].
  apply keeps_bind; [by apply keeps_modify|intros ?].
  apply keeps_modify. intros st. unfold child_classes. simpl.
  apply class_of_update_in, class_of_set_style.
Qed.

(** X9.  [openDialog] with a string for [dialogClasses] (the default is the
    empty string) discards the classes of the [.modal-dialog] children of the
    element: whatever the outcome, such a child ends with [modal-dialog]
    followed by the class names of [dialogClasses], each once, and nothing
    else; the other children keep their class attribute, and no child is
    added or removed. *)
Theorem open_resets_dialog_classes (arg : value) (st : state)
    (m : gmap string value) (s : string) :
  extend_fields (store st) [drupalSettings_dialog st; options; arg] = Ok m →
  field m "dialogClasses" = VStr s →
  Forall2 (classes_reset (foldl add_token ["modal-dialog"] (tokens s)))
    (el_kids st) (el_kids (openDialog H options arg st).2).
Proof.
  intros Hm Hs.
  set (names := foldl add_token ["modal-dialog"] (tokens s)).
  assert (Hsame : ∀ ks ks' : list node,
    class_of <$> ks' = class_of <$> after_reset (VStr s) (el_kids st) →
    ks = el_kids st →
    Forall2 (classes_reset names) ks ks').
  { intros ks ks' Heq ->.
    pose proof (after_reset_classes s (el_kids st)) as Hr. fold names in Hr.
    revert ks' Heq. induction Hr as [|n n1 ks ks1 Hn _ IH]; intros ks' Heq.
    - destruct ks'; [constructor|done].
    - destruct ks' as [|n' ks']; [done|]. simpl in Heq.
      injection Heq as Hc Heq. constructor; [|by apply IH].
      unfold classes_reset, class_list in *. rewrite Hc.
      by destruct (has_class "modal-dialog" n). }
  apply Hsame; [|done].
  change (wp (openDialog H options arg)
            (λ _ st', child_classes st'
                      = class_of <$> after_reset (VStr s) (el_kids st)) st).
  unfold openDialog. apply wp_gets_bind.
  apply wp_extend_bind; rewrite Hm; [|done|done].
  intros ? [= <-].
  apply (wp_read_bind _ m); [by apply list_lookup_middle|].
  eapply wp_run_bind; [by apply dispatch_run|].
  eapply wp_run_bind; [reflexivity|].
  eapply wp_run_bind; [apply reset_run; rewrite Hs; right; by eexists|].
  rewrite Hs.
  apply (wp_inv (λ st', child_classes st'
                        = class_of <$> after_reset (VStr s) (el_kids st))).
  - done.
  - apply (keeps_pres child_classes (λ x, x = _)).
    repeat first
      [ apply child_classes_add_header | apply child_classes_make_non_modal
      | apply child_classes_auto_buttons
      | by apply keeps_make_static | by apply keeps_set_attr
      | by apply keeps_dispatchDialogEvent | by apply keeps_emit
      | by apply keeps_write | keeps_leaf | keeps_struct ].
  - done.
Qed.

End DialogClasses.

(** With [dialogClasses: "modal-lg modal-lg wide"] on a [.modal-dialog] that
    also had the class [fade]: the class [fade] is gone. *)
Lemma open_resets_dialog_classes_witness :
  Forall2 (classes_reset ["modal-dialog"; "modal-lg"; "wide"])
    faded_skeleton
    (el_kids (openDialog plain_host (VRef 1%nat) VUndef
                (page large_options faded_skeleton)).2).
Proof.
  exact (open_resets_dialog_classes plain_host (VRef 1%nat) VUndef
           (page large_options faded_skeleton)
           (copied ∅ ∪ (copied {[ "dialogClasses" := VStr "modal-lg modal-lg wide" ]}
                          ∪ (copied default_options ∪ ∅)))
           "modal-lg modal-lg wide" eq_refl eq_refl).
Defined.

(** ** What the operations write on the element *)

Ltac keeps_with tac :=
  repeat first
    [ tac
    | by apply keeps_attr_set_attr | by apply keeps_attr_make_static
    | by apply keeps_attr_make_non_modal
    | by apply keeps_add_header | by apply keeps_auto_buttons
    | by apply keeps_updateButtons
    | by apply keeps_make_static | by apply keeps_make_non_modal
    | by apply keeps_set_attr
    | by apply keeps_dispatchDialogEvent | by apply keeps_emit
    | by apply keeps_write | by apply keeps_alloc | by apply keeps_extend
    | keeps_leaf | keeps_struct ].

Ltac keeps_any := keeps_with fail.

Lemma keeps_style_make_non_modal k0 s :
  k0 ≠ "pointer-events" → keeps (λ st, el_style st !! k0) (make_non_modal s).
Proof.
  intros Hk. unfold make_non_modal. apply keeps_when.
  apply keeps_bind; [by apply keeps_set_attr|intros ?].
  apply keeps_bind; [by apply keeps_set_attr|intros ?].
  apply keeps_bind; [|intros ?; by apply keeps_modify].
  apply keeps_modify. intros st. simpl. by apply lookup_insert_ne.
Qed.

Section Footprint.

Context (H : host) (options : value).

Lemma keeps_attr_perform k c :
  "data-settings" ≠ k → "data-bs-backdrop" ≠ k → "data-bs-keyboard" ≠ k →
  keeps (λ st, el_attrs st !! k) (perform H options c).
Proof.
  intros H1 H2 H3.
  assert (k ≠ "data-bs-backdrop") by done.
  assert (k ≠ "data-bs-keyboard") by done.
  destruct c; simpl.
  - unfold show, openDialog. keeps_any.
  - unfold showModal, openDialog. keeps_any.
  - unfold close, closeDialog. keeps_any.
  - by apply keeps_updateButtons.
  - by apply keeps_dispatchDialogEvent.
  - by apply keeps_dispatchDialogEvent.
Qed.

Lemma keeps_style_perform k c :
  k ≠ "pointer-events" → keeps (λ st, el_style st !! k) (perform H options c).
Proof.
  intros Hk.
  destruct c; simpl.
  - unfold show, openDialog.
    keeps_with ltac:(by apply keeps_style_make_non_modal).
  - unfold showModal, openDialog.
    keeps_with ltac:(by apply keeps_style_make_non_modal).
  - unfold close, closeDialog. keeps_any.
  - by apply keeps_updateButtons.
  - by apply keeps_dispatchDialogEvent.
  - by apply keeps_dispatchDialogEvent.
Qed.

(** X10.  The footprint of the component on the element itself.  Where the
    element has no modal plugin, so that nothing but the component writes on
    it: whatever is called on the handle, in any order and with any outcome,
    the only attributes of the element that can change are [data-settings],
    [data-bs-backdrop] and [data-bs-keyboard], and the only property of its
    inline style that can change is [pointer-events].  (What the plugin
    writes on the element when it is there and is called is its own
    affair.) *)
Theorem element_footprint (cs : list call) (st : state) :
  has_modal H = false →
  (∀ k, k ∉ ["data-settings"; "data-bs-backdrop"; "data-bs-keyboard"] →
        el_attrs (run H options cs st) !! k = el_attrs st !! k)
  ∧ (∀ k, k ≠ "pointer-events" →
          el_style (run H options cs st) !! k = el_style st !! k).
Proof.
  intros _. split; intros k Hk; revert st.
  - assert ("data-settings" ≠ k ∧ "data-bs-backdrop" ≠ k ∧ "data-bs-keyboard" ≠ k)
      as (H1 & H2 & H3).
    { split_and!; intros <-; apply Hk; set_solver. }
    induction cs as [|c cs IH]; intros st; [done|].
    simpl. rewrite IH. by apply (keeps_attr_perform k c).
  - induction cs as [|c cs IH]; intros st; [done|].
    simpl. rewrite IH. by apply (keeps_style_perform k c).
Qed.

End Footprint.

(** On a page without the modal plugin: [show()], then [close()]. *)
Lemma element_footprint_witness :
  (∀ k, k ∉ ["data-settings"; "data-bs-backdrop"; "data-bs-keyboard"] →
        el_attrs (run bare_host VUndef [CallShow; CallClose] (page [] skeleton)) !! k
        = el_attrs (page [] skeleton) !! k)
  ∧ (∀ k, k ≠ "pointer-events" →
          el_style (run bare_host VUndef [CallShow; CallClose] (page [] skeleton)) !! k
          = el_style (page [] skeleton) !! k).
Proof.
  exact (element_footprint bare_host VUndef [CallShow; CallClose] (page [] skeleton)
           eq_refl).
Defined.

(** ** The marks of a non-modal dialog *)

Lemma marks_keeps {A} (m : M A) :
  keeps el_attrs m → keeps el_style m → pres non_modal_marks m.
Proof.
  intros Ha Hs st. unfold non_modal_marks, modal_attrs. by rewrite Ha, Hs.
Qed.

Lemma marks_set_attr k v :
  k ≠ "data-bs-backdrop" → k ≠ "data-bs-keyboard" →
  pres non_modal_marks (set_attr k v).
Proof.
  intros H1 H2 st. unfold non_modal_marks, modal_attrs. simpl.
  by rewrite !lookup_insert_ne.
Qed.

Lemma marks_make_non_modal s : pres non_modal_marks (make_non_modal s).
Proof.
  intros st Hst. unfold make_non_modal.
  destruct (negb (truthy (field s "modal"))); [|done].
  unfold non_modal_marks, modal_attrs. simpl.
  rewrite lookup_insert_ne by done. by rewrite !lookup_insert_eq.
Qed.

Section Marks.

Context (H : host) (options : value).

Ltac marks_step :=
  first
    [ apply marks_make_non_modal
    | by apply marks_set_attr
    | solve [ apply marks_keeps; keeps_any ] ].

Lemma marks_open (b : bool) h0 d m st :
  anchored h0 d st →
  extend_fields h0 [d; options] = Ok m →
  ¬ enabled (field m "dialogStatic") →
  non_modal_marks st →
  non_modal_marks
    ((l <- alloc (CObj {[ "modal" := VBool b ]}) ;; openDialog H options (VRef l)) st).2.
Proof.
  intros [Hh <-] Hm Hoff Hmarks.
  change (wp (l <- alloc (CObj {[ "modal" := VBool b ]}) ;; openDialog H options (VRef l))
            (λ _ st', non_modal_marks st') st).
  apply wp_alloc_bind. set (arg := CObj {[ "modal" := VBool b ]}) in *.
  unfold openDialog. apply wp_gets_bind.
  apply (extend_fields_larger _ _ Hh) in Hm.
  apply extend_fields_two in Hm as (ma & mb & Ha & Hb & ->).
  set (m := copied mb ∪ (copied ma ∪ ∅)) in *.
  assert (Hp : store st `prefix_of` (store st ++ [arg])%list) by (by apply prefix_app_r).
  assert (Hm3 : extend_fields (store st ++ [arg])
                  [drupalSettings_dialog st; options; VRef (List.length (store st))]
                = Ok (copied {[ "modal" := VBool b ]} ∪ m)).
  { apply extend_fields_three. exists ma, mb, {[ "modal" := VBool b ]}.
    split_and!; try done; try by eapply enumerable_mono.
    simpl. by rewrite list_lookup_middle. }
  set (m3 := copied {[ "modal" := VBool b ]} ∪ m) in *.
  assert (Hoff3 : settingIsTrue (field m3 "dialogStatic") = false).
  { apply settingIsTrue_disabled. unfold m3. by rewrite field_with_modal. }
  clearbody m3 m arg.
  apply wp_extend_bind; simpl; rewrite Hm3; [|done|done].
  intros ? [= <-].
  apply (wp_read_bind _ m3); [by apply list_lookup_middle|].
  rewrite (make_static_off m3 Hoff3).
  apply (wp_inv non_modal_marks); [done| |done].
  repeat first [ marks_step | pres_struct | pres_leaf ].
Qed.

Lemma holds_perform h0 c : pres (holds h0) (perform H options c).
Proof.
  destruct c; simpl.
  - apply pres_bind; [apply holds_alloc_pres|intros ?]. apply holds_openDialog.
  - apply pres_bind; [apply holds_alloc_pres|intros ?]. apply holds_openDialog.
  - unfold close, closeDialog.
    repeat first [ apply holds_alloc_pres | apply holds_emit | pres_leaf | pres_struct ].
  - apply holds_updateButtons.
  - apply holds_dispatchDialogEvent.
  - apply holds_dispatchDialogEvent.
Qed.

Lemma keeps_defaults_perform c : keeps drupalSettings_dialog (perform H options c).
Proof.
  destruct c; simpl.
  - unfold show. apply keeps_bind; [by apply keeps_alloc|intros ?].
    by apply keeps_openDialog.
  - unfold showModal. apply keeps_bind; [by apply keeps_alloc|intros ?].
    by apply keeps_openDialog.
  - unfold close, closeDialog. keeps_any.
  - by apply keeps_updateButtons.
  - by apply keeps_dispatchDialogEvent.
  - by apply keeps_dispatchDialogEvent.
Qed.

Lemma marks_perform h0 d m c :
  extend_fields h0 [d; options] = Ok m →
  ¬ enabled (field m "dialogStatic") →
  pres (λ st, anchored h0 d st ∧ non_modal_marks st) (perform H options c).
Proof.
  intros Hm Hoff st [Ha Hmarks]. split.
  - destruct Ha as [Hh Hd]. split; [by apply holds_perform|].
    by rewrite keeps_defaults_perform.
  - destruct c; simpl.
    + by apply (marks_open false h0 d m).
    + by apply (marks_open true h0 d m).
    + apply marks_keeps; [..|done]; unfold close, closeDialog; keeps_any.
    + apply marks_keeps; [..|done]; by apply keeps_updateButtons.
    + apply marks_keeps; [..|done]; by apply keeps_dispatchDialogEvent.
    + apply marks_keeps; [..|done]; by apply keeps_dispatchDialogEvent.
Qed.

(** X11.  Nothing undoes [show()].  Once the element carries the marks of a
    non-modal dialog ([data-bs-backdrop="false"], [data-bs-keyboard="true"],
    [pointer-events: none]), it carries them after any further calls on the
    handle, [close()] and [showModal()] included, as long as the defaults and
    the factory options do not switch [dialogStatic] on. *)
Theorem non_modal_marks_persist (cs : list call) (st : state)
    (m : gmap string value) :
  extend_fields (store st) [drupalSettings_dialog st; options] = Ok m →
  ¬ enabled (field m "dialogStatic") →
  non_modal_marks st →
  non_modal_marks (run H options cs st).
Proof.
  intros Hm Hoff Hmarks.
  assert (Ha : anchored (store st) (drupalSettings_dialog st) st).
  { split; [apply holds_refl|done]. }
  revert Hm Ha. generalize (store st) (drupalSettings_dialog st).
  intros h0 d Hm Ha. revert st Ha Hmarks.
  induction cs as [|c cs IH]; intros st Ha Hmarks; [done|].
  simpl.
  destruct (marks_perform h0 d m c Hm Hoff st (conj Ha Hmarks)) as [Ha' Hmarks'].
  by apply IH.
Qed.

End Marks.

(** After [show()], then [close()] and [showModal()]: still marked. *)
Lemma non_modal_marks_persist_witness :
  non_modal_marks
    (run plain_host VUndef [CallClose; CallShowModal]
       (show plain_host VUndef (page [] skeleton)).2).
Proof.
  apply (non_modal_marks_persist plain_host VUndef [CallClose; CallShowModal]
           (show plain_host VUndef (page [] skeleton)).2
           (copied ∅ ∪ (copied default_options ∪ ∅))).
  - vm_compute. reflexivity.
  - intros [Hv|Hv]; vm_compute in Hv; discriminate Hv.
  - vm_compute. split; reflexivity.
Defined.

(** ** The hide listeners *)

Section Hide.

Context (H : host) (options : value).

(** X12.  The listeners of [hide.bs.modal] and [hidden.bs.modal] announce
    [beforeclose] and [afterclose] without any settings: a jQuery listener of
    [dialog:beforeclose] or [dialog:afterclose] gets [undefined], a
    [DrupalDialogEvent] gets an empty object made for the occasion; either
    way the merged settings of the dialog are not passed on, and the handle,
    the element and the defaults are left as they are. *)
Theorem hide_listeners_pass_no_settings (st : state) :
  announces_without_settings H "beforeclose" (on_hide H) st
  ∧ announces_without_settings H "afterclose" (on_hidden H) st.
Proof.
  unfold announces_without_settings, on_hide, on_hidden, dispatchDialogEvent,
    announced.
  destruct (has_DrupalDialogEvent H); simpl; split_and!; try done; by eexists.
Qed.

End Hide.

(** ** Headers *)

Section Headers.

Lemma update_nothing f r n : select r n = [] → update f r n = n.
Proof.
  revert r. induction n as [t a s c ks IH|s] using node_ind'; intros r Hsel; [|done].
  set (n := Elem t a s c ks) in *.
  change (select r n) with
    ((if hits r n then [n] else []) ++ flat_map (select (step r n)) ks)%list in Hsel.
  apply app_eq_nil in Hsel as [Hhit Hkids].
  assert (Hno : hits r n = false) by (by destruct (hits r n)).
  change (update f r n) with
    (let n' := Elem t a s c (map (update f (step r n)) ks) in
     if hits r n then f n' else n').
  cbn zeta. rewrite Hno. unfold n at 2. f_equal.
  clear Hhit Hno. revert Hkids. generalize (step r n). clear n. intros r'.
  induction IH as [|k ks Hk _ IHks]; intros Hkids; [done|].
  cbn [flat_map] in Hkids. apply app_eq_nil in Hkids as [Hk' Hks'].
  cbn [map]. by rewrite Hk, IHks.
Qed.

(** The states in which the walk for [.modal-dialog .modal-content] can be. *)
Lemma content_walk r n :
  r = content_sel ∨ r = ["modal-content"] →
  (step r n = content_sel ∨ step r n = ["modal-content"])
  ∧ (hits r n = true → r = ["modal-content"] ∧ step r n = ["modal-content"]).
Proof.
  intros [->| ->]; simpl.
  - split; [|done]. destruct (has_class "modal-dialog" n); [by right|by left].
  - split; [by right|done].
Qed.

Lemma update_prepend_twice hdr hdr' r n :
  r = content_sel ∨ r = ["modal-content"] →
  select_in ["modal-content"] hdr = [] →
  update (prepend_kids hdr') r (update (prepend_kids hdr) r n)
  = update (prepend_kids (hdr' ++ hdr)) r n.
Proof.
  intros Hr Hclean. revert r Hr.
  induction n as [t a s c ks IH|s] using node_ind'; intros r Hr; [|done].
  set (n := Elem t a s c ks) in *.
  destruct (content_walk r n Hr) as [Hstep Hhit]. pose proof Hstep as Hstep0.
  assert (Hks : map (update (prepend_kids hdr') (step r n))
                    (map (update (prepend_kids hdr) (step r n)) ks)
                = map (update (prepend_kids (hdr' ++ hdr)) (step r n)) ks).
  { rewrite map_map. clear Hhit Hstep. revert Hstep0. generalize (step r n). clear n.
    intros r' Hr'. induction IH as [|k ks Hk _ IHks]; [done|].
    cbn [map]. by rewrite Hk, IHks. }
  change (update (prepend_kids hdr) r n) with
    (let n' := Elem t a s c (map (update (prepend_kids hdr) (step r n)) ks) in
     if hits r n then prepend_kids hdr n' else n').
  change (update (prepend_kids (hdr' ++ hdr)) r n) with
    (let n' := Elem t a s c (map (update (prepend_kids (hdr' ++ hdr)) (step r n)) ks) in
     if hits r n then prepend_kids (hdr' ++ hdr) n' else n').
  cbn zeta. destruct (hits r n) eqn:Hh.
  - destruct (Hhit eq_refl) as [-> Hst]. rewrite Hst in *.
    simpl prepend_kids.
    change (update ?f ["modal-content"] (Elem t a s c ?l)) with
      (let n' := Elem t a s c (map (update f (step ["modal-content"] (Elem t a s c l))) l) in
       if hits ["modal-content"] (Elem t a s c l) then f n' else n').
    cbn zeta.
    rewrite (hits_same _ _ n) by done. rewrite Hh.
    rewrite (step_same _ _ n) by done. rewrite Hst.
    rewrite map_app, Hks. simpl prepend_kids. f_equal.
    rewrite <-app_assoc. f_equal. f_equal.
    clear -Hclean. unfold select_in in Hclean.
    induction hdr as [|x hdr IHh]; [done|].
    simpl in Hclean. apply app_eq_nil in Hclean as [Hx Hrest].
    simpl. by rewrite update_nothing, IHh.
  - change (update ?f r (Elem t a s c ?l)) with
      (let n' := Elem t a s c (map (update f (step r (Elem t a s c l))) l) in
       if hits r (Elem t a s c l) then f n' else n').
    cbn zeta.
    rewrite (hits_same _ _ n) by done. rewrite Hh.
    rewrite (step_same _ _ n) by done. by rewrite Hks.
Qed.

Lemma update_in_prepend_twice hdr hdr' ks :
  select_in ["modal-content"] hdr = [] →
  update_in (prepend_kids hdr') content_sel (update_in (prepend_kids hdr) content_sel ks)
  = update_in (prepend_kids (hdr' ++ hdr)) content_sel ks.
Proof.
  intros Hclean. unfold update_in. rewrite map_map.
  apply map_ext. intros n. apply update_prepend_twice; [by left|done].
Qed.

End Headers.

Section HeaderStep.

Context (H : host).

(** X13.  The header is added, never replaced.  Lines 151-164 put the header
    in front of the children of every [.modal-content]; run again with the
    same settings, as when a dialog is opened a second time, they put a
    second header in front of the first (provided the header markup holds no
    [.modal-content] of its own). *)
Theorem header_is_added_again (s : gmap string value) (st : state) :
  enabled (field s "dialogShowHeader") →
  (add_header H s st).1 = Ok tt →
  ∃ markup : string,
    el_kids (add_header H s st).2
    = update_in (prepend_kids (parseHTML H markup)) content_sel (el_kids st)
    ∧ (select_in ["modal-content"] (parseHTML H markup) = [] →
       el_kids (add_header H s (add_header H s st).2).2
       = update_in (prepend_kids (parseHTML H markup ++ parseHTML H markup))
           content_sel (el_kids st)).
Proof.
  intros Hon%settingIsTrue_enabled. unfold add_header. rewrite Hon.
  unfold when, bind, lift, ret, modify.
  destruct (settingIsTrue (field s "dialogShowHeaderTitle")).
  - destruct (to_string (field s "dialogHeadingLevel")) as [hs|]; [|done].
    destruct (to_string (field s "title")) as [ts|]; [|done].
    simpl. intros _. eexists. split; [reflexivity|].
    intros Hclean. by rewrite update_in_prepend_twice.
  - simpl. intros _. eexists. split; [reflexivity|].
    intros Hclean. by rewrite update_in_prepend_twice.
Qed.

End HeaderStep.

(** With the defaults on the skeleton. *)
Lemma header_is_added_again_witness :
  ∃ markup : string,
    el_kids (add_header plain_host default_options (page [] skeleton)).2
    = update_in (prepend_kids (parseHTML plain_host markup)) content_sel skeleton
    ∧ (select_in ["modal-content"] (parseHTML plain_host markup) = [] →
       el_kids (add_header plain_host default_options
                  (add_header plain_host default_options (page [] skeleton)).2).2
       = update_in
           (prepend_kids (parseHTML plain_host markup ++ parseHTML plain_host markup))
           content_sel skeleton).
Proof.
  apply (header_is_added_again plain_host default_options (page [] skeleton)).
  - left. reflexivity.
  - vm_compute. reflexivity.
Defined.

(** Opening, closing and opening again on the skeleton: two headers. *)
Example two_headers_after_reopening :
  List.length
    (flat_map kids_of
       (select_in content_sel
          (el_kids (run plain_host VUndef [CallShowModal; CallClose; CallShowModal]
                      (page [] skeleton)))))
  = 2%nat.
Proof. vm_compute. reflexivity. Qed.

(** ** The attributes of a button *)

Section Attributes.

Lemma attr_set_plain_run k s a :
  attr_name_ok k = true → attr_set k (VStr s) a = Ok (<[k := rendered k s]> a).
Proof.
  intros Hk. unfold attr_set, rendered. rewrite Hk. simpl.
  by destruct (is_bool_attr k).
Qed.

Lemma attr_fold_plain (l : list (string * value)) (a : gmap string string) :
  NoDup l.*1 → Forall (λ kv, plain_attr kv.1 kv.2) l →
  ∃ a',
    foldr (λ kv acc, a' <~ acc ;; attr_set kv.1 kv.2 a') (Ok a) l = Ok a'
    ∧ (∀ k s, (k, VStr s) ∈ l → a' !! k = Some (rendered k s))
    ∧ (∀ k, k ∉ l.*1 → a' !! k = a !! k).
Proof.
  induction l as [|[k v] l IH]; intros Hnd Hall.
  - exists a. split_and!; [done| |done]. intros k s Hin. by apply elem_of_nil in Hin.
  - apply NoDup_cons in Hnd as [Hk Hnd]. apply Forall_cons in Hall as [[Hok [s Hs]] Hall].
    simpl in Hok, Hs. subst v.
    destruct (IH Hnd Hall) as (a1 & Hrun & Hin & Hout).
    exists (<[k := rendered k s]> a1). simpl. rewrite Hrun. simpl.
    split_and!.
    + by apply attr_set_plain_run.
    + intros k' s' [[= -> ->]|Hin']%elem_of_cons.
      * apply lookup_insert_eq.
      * rewrite lookup_insert_ne; [by apply Hin|].
        intros ->. apply Hk. apply list_elem_of_fmap. by exists (k', VStr s').
    + intros k' Hk'. simpl in Hk'. apply not_elem_of_cons in Hk' as [Hne Hk'].
      rewrite lookup_insert_ne by done. by apply Hout.
Qed.

Lemma attr_all_plain_run h la (ma : gmap string value) (a : gmap string string) :
  h !! la = Some (CObj ma) → map_Forall plain_attr ma →
  ∃ a',
    attr_all h (VRef la) a = Ok a'
    ∧ (∀ k s, ma !! k = Some (VStr s) → a' !! k = Some (rendered k s))
    ∧ (∀ k, ma !! k = None → a' !! k = a !! k).
Proof.
  intros Hla Hplain. unfold attr_all. rewrite Hla.
  destruct (attr_fold_plain (map_to_list ma) a) as (a' & Hrun & Hin & Hout).
  - apply NoDup_fst_map_to_list.
  - apply Forall_forall. intros [k v] Hkv%elem_of_map_to_list. by apply Hplain.
  - exists a'. split_and!; [done| |].
    + intros k s Hk. apply Hin. by apply elem_of_map_to_list.
    + intros k Hk. apply Hout. intros ([k' v] & -> & Hkv%elem_of_map_to_list)%list_elem_of_fmap.
      simpl in Hk. congruence.
Qed.

Context (H : host).

(** X14.  The [attributes] of a ButtonSpec are set on its button before
    anything else, so they replace the [type="button"] the button starts
    with: apart from [class], the button ends with exactly the attributes of
    the ButtonSpec (a boolean attribute such as [disabled] with its own name
    for value), and with [type="button"] when the ButtonSpec names no
    type. *)
Theorem button_attributes_are_set (h : heap) (s : gmap string value)
    (lx la : loc) (mx ma : gmap string value) (b : node) :
  h !! lx = Some (CObj mx) →
  field mx "attributes" = VRef la →
  h !! la = Some (CObj ma) →
  map_Forall plain_attr ma →
  make_button H h s (VRef lx) = Ok b →
  (∀ k v, k ≠ "class" → ma !! k = Some (VStr v) →
          attrs_of b !! k = Some (rendered k v))
  ∧ (∀ k, k ≠ "class" → ma !! k = None →
          attrs_of b !! k = ({[ "type" := "button" ]} : gmap string string) !! k).
Proof.
  intros Hlx Hattrs Hla Hplain.
  unfold make_button. intros (b0 & Hb0 & Hfb)%obind_Ok.
  unfold assemble in Hb0.
  apply obind_Ok in Hb0 as (attributes & Hat & Hb0).
  apply obind_Ok in Hb0 as (a1' & Ha1 & Hb0).
  apply obind_Ok in Hb0 as (cls & _ & Hb0).
  apply obind_Ok in Hb0 as (names & _ & Hb0).
  apply obind_Ok in Hb0 as (text & _ & Hb0).
  apply obind_Ok in Hb0 as (ks & _ & [= <-]).
  unfold button_prop in Hat. rewrite Hlx, Hattrs in Hat. injection Hat as <-.
  change (negb (strict_eq (VRef la) VUndef)) with true in Ha1. cbn iota in Ha1.
  destruct (attr_all_plain_run h la ma {[ "type" := "button" ]} Hla Hplain)
    as (a1 & Hrun & Hin & Hout).
  rewrite Hrun in Ha1. injection Ha1 as <-.
  apply fallback_shape in Hfb as (a' & -> & Ha').
  split.
  - intros k v Hk Hv. simpl. rewrite Ha' by done.
    rewrite lookup_partial_alter_ne by done. by apply Hin.
  - intros k Hk Hv. simpl. rewrite Ha' by done.
    rewrite lookup_partial_alter_ne by done. by apply Hout.
Qed.

End Attributes.

(** A ButtonSpec with [attributes: {type: "submit", disabled: "yes"}]: the
    button has [type="submit"] and [disabled="disabled"]. *)
Lemma button_attributes_are_set_witness :
  make_button plain_host submit_button default_options (VRef 0%nat) = Ok send_button
  ∧ attrs_of send_button !! "type" = Some (rendered "type" "submit")
  ∧ attrs_of send_button !! "disabled" = Some (rendered "disabled" "yes").
Proof.
  assert (Hb : make_button plain_host submit_button default_options (VRef 0%nat)
               = Ok send_button) by (vm_compute; reflexivity).
  assert (Hplain : map_Forall plain_attr
            (<[ "type" := VStr "submit" ]> {[ "disabled" := VStr "yes" ]}
             : gmap string value)).
  { apply map_Forall_insert_2; [split; [reflexivity|by eexists]|].
    apply map_Forall_singleton. split; [reflexivity|by eexists]. }
  destruct (button_attributes_are_set plain_host submit_button default_options
              0%nat 1%nat
              (<[ "attributes" := VRef 1%nat ]> {[ "text" := VStr "Send" ]})
              (<[ "type" := VStr "submit" ]> {[ "disabled" := VStr "yes" ]})
              send_button eq_refl eq_refl eq_refl Hplain Hb) as [Hw _].
  split; [exact Hb|].
  split.
  - apply (Hw "type" "submit"); [discriminate|reflexivity].
  - apply (Hw "disabled" "yes"); [discriminate|reflexivity].
Defined.

Example rendered_values :
  rendered "type" "submit" = "submit" ∧ rendered "disabled" "yes" = "disabled".
Proof. vm_compute. by split. Qed.

(** ** An element without the skeleton *)

Section NoSkeleton.

Lemma select_needs_first c rest n :
  rest ≠ [] → select [c] n = [] → select (c :: rest) n = [].
Proof.
  intros Hrest. induction n as [t a s cl ks IH|s] using node_ind'; [|done].
  set (n := Elem t a s cl ks) in *.
  change (select [c] n) with
    ((if hits [c] n then [n] else []) ++ flat_map (select (step [c] n)) ks)%list.
  change (select (c :: rest) n) with
    ((if hits (c :: rest) n then [n] else [])
     ++ flat_map (select (step (c :: rest) n)) ks)%list.
  intros [Hhit Hkids]%app_eq_nil.
  assert (Hno : has_class c n = false).
  { change (hits [c] n) with (has_class c n) in Hhit. by destruct (has_class c n). }
  assert (Hstep : step (c :: rest) n = c :: rest).
  { destruct rest as [|r rest]; [done|]. simpl. by rewrite Hno. }
  assert (Hh : hits (c :: rest) n = false) by (by destruct rest).
  rewrite Hh, Hstep. change (step [c] n) with [c] in Hkids. simpl.
  clear Hhit Hno Hstep Hh. clear n.
  induction IH as [|k ks Hk _ IHks]; [done|].
  cbn [flat_map] in *. apply app_eq_nil in Hkids as [Hk' Hks'].
  by rewrite Hk, IHks.
Qed.

Lemma select_in_needs_first c rest ks :
  rest ≠ [] → select_in [c] ks = [] → select_in (c :: rest) ks = [].
Proof.
  intros Hrest. unfold select_in. induction ks as [|k ks IH]; [done|].
  cbn [flat_map]. intros [Hk Hks]%app_eq_nil.
  by rewrite select_needs_first, IH.
Qed.

Lemma update_in_nothing f r ks : select_in r ks = [] → update_in f r ks = ks.
Proof.
  unfold select_in, update_in. induction ks as [|k ks IH]; [done|].
  cbn [flat_map map]. intros [Hk Hks]%app_eq_nil.
  by rewrite update_nothing, IH.
Qed.

Context (H : host) (options : value).

(** The subtree has no [.modal-dialog]. *)
Lemma bare_updateButtons buttons ks :
  select_in dialog_sel ks = [] →
  pres (λ st, el_kids st = ks) (updateButtons H options buttons).
Proof.
  intros Hbare st <-. rewrite updateButtons_run.
  destruct (extend_fields _ _) as [m| |]; [|done|done]. cbn zeta.
  destruct (make_footer _ _ _ _) as [footer| |]; [|done|done].
  simpl. rewrite replaced_cleaned.
  rewrite remove_in_nothing by (by apply select_in_needs_first).
  destruct (negb _); [|done].
  apply update_in_nothing. by apply select_in_needs_first.
Qed.

Lemma bare_modify f r ks :
  select_in dialog_sel ks = [] → r = dialog_sel ∨ r = content_sel →
  pres (λ st, el_kids st = ks)
    (modify (λ st, with_kids (update_in f r (el_kids st)) st)).
Proof.
  intros Hbare Hr st <-. simpl. apply update_in_nothing.
  destruct Hr as [-> | ->]; [done|by apply select_in_needs_first].
Qed.

Lemma bare_openDialog arg ks :
  select_in dialog_sel ks = [] →
  pres (λ st, el_kids st = ks) (openDialog H options arg).
Proof.
  intros Hbare.
  unfold openDialog, add_header, make_non_modal, auto_buttons.
  repeat first
    [ apply bare_updateButtons; assumption
    | apply bare_modify; [assumption|by auto]
    | apply (keeps_pres el_kids (λ x, x = ks));
      first [ by apply keeps_dispatchDialogEvent | by apply keeps_emit
            | by apply keeps_write | by apply keeps_set_attr
            | by apply keeps_make_static | by apply keeps_extend
            | by apply keeps_modify ]
    | pres_leaf | pres_struct ].
Qed.

(** X15.  An element without the skeleton.  When the element holds no
    [.modal-dialog], no call on the handle changes its subtree, whatever the
    outcome: the header and the footer that [show()], [showModal()] and
    [updateButtons()] build are dropped without a word. *)
Theorem no_skeleton_no_change (cs : list call) (st : state) :
  select_in dialog_sel (el_kids st) = [] →
  el_kids (run H options cs st) = el_kids st.
Proof.
  intros Hbare.
  assert (Hstep : ∀ c, pres (λ st', el_kids st' = el_kids st) (perform H options c)).
  { intros c. destruct c; simpl.
    - apply pres_bind; [|intros ?; by apply bare_openDialog].
      apply (keeps_pres el_kids (λ x, x = _)). by apply keeps_alloc.
    - apply pres_bind; [|intros ?; by apply bare_openDialog].
      apply (keeps_pres el_kids (λ x, x = _)). by apply keeps_alloc.
    - apply (keeps_pres el_kids (λ x, x = _)). unfold close, closeDialog. keeps_any.
    - by apply bare_updateButtons.
    - apply (keeps_pres el_kids (λ x, x = _)). by apply keeps_dispatchDialogEvent.
    - apply (keeps_pres el_kids (λ x, x = _)). by apply keeps_dispatchDialogEvent. }
  assert (Hgen : ∀ st', el_kids st' = el_kids st →
                        el_kids (run H options cs st') = el_kids st).
  { induction cs as [|c cs IH]; intros st' Hst'; [done|].
    simpl. apply IH. by apply Hstep. }
  by apply Hgen.
Qed.

End NoSkeleton.

(** A [.modal-content] outside any [.modal-dialog], with a footer: opening
    and updating the buttons leave it as it is. *)
Lemma no_skeleton_no_change_witness :
  el_kids (run plain_host VUndef [CallShowModal; CallUpdateButtons (VRef 3%nat)]
             (page ok_cancel loose_content))
  = loose_content.
Proof.
  apply (no_skeleton_no_change plain_host VUndef
           [CallShowModal; CallUpdateButtons (VRef 3%nat)]
           (page ok_cancel loose_content)).
  reflexivity.
Defined.

(** ** The buttons of [drupalAutoButtons] *)

Section AutoButtons.

Context (H : host) (options : value).





End AutoButtons.


(** ** [dialogStatic] *)

Section Static.

Context (H : host) (options : value).

Lemma make_static_on m st :
  enabled (field m "dialogStatic") →
  make_static m st
  = (Ok tt,
     with_attrs (<["data-bs-keyboard" := "false"]>
                   (<["data-bs-backdrop" := "static"]> (el_attrs st))) st).
Proof. intros Hon%settingIsTrue_enabled. unfold make_static. by rewrite Hon. Qed.

(** [show()] and [showModal()] from line 166 on, when [dialogStatic] is on. *)
Lemma static_then_modal (b : bool) (l : loc) (m3 : gmap string value) st :
  enabled (field m3 "dialogStatic") →
  field m3 "modal" = VBool b →
  wp (make_static m3 ;; make_non_modal m3 ;; open_tail H options l m3)
     (λ _ st',
        if b then modal_attrs st' = (Some "static", Some "false")
        else non_modal_marks st') st.
Proof.
  intros Hon Hmodal.
  eapply wp_run_bind; [by apply make_static_on|].
  set (st1 := with_attrs _ st).
  assert (Hkeep : ∀ (P : option string * option string * option string → Prop) st2,
    P (modal_attrs st2, el_style st2 !! "pointer-events") →
    wp (open_tail H options l m3)
       (λ _ st', P (modal_attrs st', el_style st' !! "pointer-events")) st2).
  { intros P st2 HP.
    apply (wp_inv (λ st', P (modal_attrs st', el_style st' !! "pointer-events")));
      [done| |done].
    apply (keeps_pres (λ st', (modal_attrs st', el_style st' !! "pointer-events")) P).
    unfold open_tail. by apply keeps_tail. }
  destruct b.
  - rewrite make_non_modal_off by (by rewrite Hmodal).
    apply wp_bind. unfold wp at 1. simpl.
    apply (Hkeep (λ x, x.1 = (Some "static", Some "false"))).
    unfold st1, modal_attrs. simpl.
    rewrite lookup_insert_ne by done. by rewrite !lookup_insert_eq.
  - unfold make_non_modal. rewrite Hmodal. simpl when.
    eapply wp_run_bind; [reflexivity|].
    apply (Hkeep (λ x, x.1 = (Some "false", Some "true") ∧ x.2 = Some "none")).
    unfold modal_attrs. simpl.
    rewrite lookup_insert_ne by done. by rewrite !lookup_insert_eq.
Qed.

(** X17.  [dialogStatic] counts for modal dialogs only.  When the defaults
    and the factory options switch [dialogStatic] on, a [showModal()] that
    returns leaves [data-bs-backdrop="static"] and [data-bs-keyboard="false"]
    on the element, whereas a [show()] that returns leaves the marks of a
    non-modal dialog: lines 172-179 overwrite what lines 166-169 wrote. *)
Theorem static_counts_for_modal_only (st : state) (m : gmap string value) :
  extend_fields (store st) [drupalSettings_dialog st; options] = Ok m →
  enabled (field m "dialogStatic") →
  ((showModal H options st).1 = Ok tt →
   modal_attrs (showModal H options st).2 = (Some "static", Some "false"))
  ∧ ((show H options st).1 = Ok tt → non_modal_marks (show H options st).2).
Proof.
  intros Hm Hon.
  assert (Hopen : ∀ b : bool,
    wp (l <- alloc (CObj {[ "modal" := VBool b ]}) ;; openDialog H options (VRef l))
       (λ o st', o = Ok tt →
          if b then modal_attrs st' = (Some "static", Some "false")
          else non_modal_marks st') st).
  { intros b. apply wp_alloc_bind. set (arg := CObj {[ "modal" := VBool b ]}) in *.
    unfold openDialog. apply wp_gets_bind.
    apply extend_fields_two in Hm as (ma & mb & Ha & Hb & ->).
    set (m := copied mb ∪ (copied ma ∪ ∅)) in *.
    assert (Hp : store st `prefix_of` (store st ++ [arg])%list) by (by apply prefix_app_r).
    assert (Hm3 : extend_fields (store st ++ [arg])
                    [drupalSettings_dialog st; options; VRef (List.length (store st))]
                  = Ok (copied {[ "modal" := VBool b ]} ∪ m)).
    { apply extend_fields_three. exists ma, mb, {[ "modal" := VBool b ]}.
      split_and!; try done; try by eapply enumerable_mono.
      simpl. by rewrite list_lookup_middle. }
    set (m3 := copied {[ "modal" := VBool b ]} ∪ m) in *.
    assert (Hon3 : enabled (field m3 "dialogStatic")).
    { unfold m3. by rewrite field_with_modal. }
    assert (Hmodal : field m3 "modal" = VBool b).
    { apply field_union_l, copied_singleton_lookup; done. }
    clearbody m3 m arg.
    apply wp_extend_bind; simpl; rewrite Hm3; [|done|done].
    intros ? [= <-].
    apply (wp_read_bind _ m3); [by apply list_lookup_middle|].
    set (st1 := with_store _ _). clearbody st1.
    do 7 (eapply (wp_inv_bind (λ _, True));
      [ done | by intros ? ? | clear st1; intros ? st1 _ | done | done ]).
    eapply wp_mono; [by apply (static_then_modal b _ m3)|].
    by intros o st' Hst' _. }
  split.
  - apply (Hopen true).
  - apply (Hopen false).
Qed.

End Static.

(** With [dialogStatic: "true"] in the factory options. *)
Lemma static_counts_for_modal_only_witness :
  modal_attrs (showModal plain_host (VRef 1%nat) (page static_options skeleton)).2
  = (Some "static", Some "false")
  ∧ non_modal_marks (show plain_host (VRef 1%nat) (page static_options skeleton)).2.
Proof.
  destruct (static_counts_for_modal_only plain_host (VRef 1%nat)
              (page static_options skeleton)
              (copied {[ "dialogStatic" := VStr "true" ]}
               ∪ (copied default_options ∪ ∅)) eq_refl) as [Hmodal Hshow].
  - right. reflexivity.
  - split; [apply Hmodal|apply Hshow]; vm_compute; reflexivity.
Defined.

(** * Footer replacement and completion *)

(** ** [updateButtons] twice, with its footer *)

Section Replaced.

Context (H : host) (options : value).




End Replaced.



(** ** Which operations return, and which throw *)

Section Outcomes.

Context (H : host) (options : value).


















End Outcomes.

